(** * magika-dir-stats: a shallow embedding of [main.py]

    The program walks a directory tree, asks a classifier for the type label
    of every regular file, adds the file sizes up per label and prints a table.
    This file embeds [scan_directory], [format_size], [display_results] and
    [main] and proves the properties the specification states about them.

    Python values are modelled as the interpreter has them: [int] is [Z],
    [float] is an IEEE 754 binary64 value ([spec_float] with [prec = 53] and
    [emax = 1024]), [str] is [string], a raised exception is a value of [exn]
    and a [dict] is the list of its items in insertion order.  A
    [pathlib.Path] is the list of its parts.  The file system is a tree that
    holds, for every name, what [lstat()] and [stat()] answer or raise;
    [os.walk] and [Path.is_symlink] are modelled from the library. *)

From Stdlib Require Import ZArith NArith List String Ascii Bool Lia.
From Stdlib Require Import Permutation Sorted DecimalString.
From Stdlib Require Import Floats.SpecFloat.
Import ListNotations.

Local Open Scope string_scope.
Local Open Scope list_scope.
Local Open Scope Z_scope.

(** ** Exceptions and results *)

(** The exception classes the program can meet.  [PermissionError],
    [FileNotFoundError] and [NotADirectoryError] are the subclasses of
    [OSError] Python raises for the error numbers EACCES and EPERM, ENOENT
    and ENOTDIR; [OSError errno] is an [OSError] of no such subclass with the
    error number it carries; [OtherException] stands for any class that is
    none of the ones named here and no subclass of theirs. *)
Inductive exn_class :=
| OSError (errno : Z)
| PermissionError
| FileNotFoundError
| NotADirectoryError
| ValueError
| ZeroDivisionError
| OverflowError
| OtherException (name : string).

Record exn := Exn { exn_cls : exn_class; exn_msg : string }.

(** [isinstance(e, OSError)]. *)
Definition is_OSError (e : exn) : bool :=
  match exn_cls e with
  | OSError _ | PermissionError | FileNotFoundError | NotADirectoryError => true
  | _ => false
  end.

(** [isinstance(e, PermissionError)]. *)
Definition is_PermissionError (e : exn) : bool :=
  match exn_cls e with
  | PermissionError => true
  | _ => false
  end.

(** [isinstance(e, ValueError)]. *)
Definition is_ValueError (e : exn) : bool :=
  match exn_cls e with
  | ValueError => true
  | _ => false
  end.

Definition class_name (c : exn_class) : string :=
  match c with
  | OSError _ => "OSError"
  | PermissionError => "PermissionError"
  | FileNotFoundError => "FileNotFoundError"
  | NotADirectoryError => "NotADirectoryError"
  | ValueError => "ValueError"
  | ZeroDivisionError => "ZeroDivisionError"
  | OverflowError => "OverflowError"
  | OtherException name => name
  end.

(** The error numbers [pathlib] looks at, with their values on Linux. *)
Definition ENOENT : Z := 2.
Definition EBADF : Z := 9.
Definition ENOTDIR : Z := 20.
Definition ELOOP : Z := 40.

(** [pathlib._ignore_error(e)] for an [OSError]: its error number is one of
    ENOENT, ENOTDIR, EBADF and ELOOP, the errors of a path that is not
    there.  The error numbers of [PermissionError] are not among them. *)
Definition ignore_error (e : exn) : bool :=
  match exn_cls e with
  | FileNotFoundError | NotADirectoryError => true
  | OSError errno => existsb (Z.eqb errno) [ENOENT; ENOTDIR; EBADF; ELOOP]
  | _ => false
  end.

(** A call either returns a value or raises. *)
Inductive outcome (A : Type) :=
| Ok (a : A)
| Raise (e : exn).
Arguments Ok {A} a.
Arguments Raise {A} e.

Definition bind {A B : Type} (x : outcome A) (f : A -> outcome B) : outcome B :=
  match x with
  | Ok a => f a
  | Raise e => Raise e
  end.

Notation "x <- c1 ;; c2" := (bind c1 (fun x => c2))
  (at level 61, c1 at next level, right associativity).

Definition is_ok {A : Type} (x : outcome A) : bool :=
  match x with Ok _ => true | Raise _ => false end.

(** The exception of a call that raises. *)
Definition error_of {A : Type} (x : outcome A) : option exn :=
  match x with Ok _ => None | Raise e => Some e end.

(** ** The accumulator: a [dict] from label to bytes *)

(** The items of the dict, in insertion order; keys are unique. *)
Definition dict := list (string * Z).

Fixpoint dict_get (d : dict) (k : string) : option Z :=
  match d with
  | [] => None
  | (k', v) :: r => if String.eqb k' k then Some v else dict_get r k
  end.

(** [d[k] += v] on a [defaultdict(int)]: a key that is present keeps its
    place, a missing key is created with [0] at the end and then added to. *)
Fixpoint dict_add (d : dict) (k : string) (v : Z) : dict :=
  match d with
  | [] => [(k, 0 + v)]
  | (k', v') :: r =>
      if String.eqb k' k then (k', v' + v) :: r else (k', v') :: dict_add r k v
  end.

Definition keys (d : dict) : list string := map fst d.
Definition values (d : dict) : list Z := map snd d.

(** [sum(xs)]. *)
Definition sum (xs : list Z) : Z := fold_left Z.add xs 0.

(** The value a label is mapped to, [0] for a label that is not a key. *)
Definition size_of (d : dict) (k : string) : Z :=
  match dict_get d k with Some v => v | None => 0 end.

(** ** Paths *)

(** A [pathlib.Path] on POSIX is the tuple of its parts: the root (["/"] or
    ["//"]) first when the path has one, then the components, none of which
    is empty or a dot. *)
Definition path := list string.

Definition sep : ascii := "/"%char.

(** [s.split("/")]. *)
Fixpoint split_sep (s : string) : list string :=
  match s with
  | EmptyString => [""]
  | String c r =>
      if Ascii.eqb c sep then "" :: split_sep r
      else
        match split_sep r with
        | x :: xs => String c x :: xs
        | [] => [String c ""]
        end
  end.

(** [s.lstrip("/")]. *)
Fixpoint lstrip_sep (s : string) : string :=
  match s with
  | String c r => if Ascii.eqb c sep then lstrip_sep r else s
  | EmptyString => s
  end.

(** [splitroot] of the POSIX flavour: the root and what follows it.  Exactly
    two leading separators are kept as they are, any other number is one. *)
Definition splitroot (part : string) : string * string :=
  match part with
  | String c _ =>
      if Ascii.eqb c sep then
        let stripped := lstrip_sep part in
        if Nat.eqb (String.length part - String.length stripped) 2
        then ("//", stripped) else ("/", stripped)
      else ("", part)
  | EmptyString => ("", part)
  end.

(** The components of a string without a root: empty ones and dots go. *)
Definition components (rel : string) : list string :=
  filter (fun x => negb (String.eqb x "" || String.eqb x ".")) (split_sep rel).

(** [Path(s)]. *)
Definition Path (s : string) : path :=
  let '(root, rel) := splitroot s in
  (if String.eqb root "" then [] else [root]) ++ components rel.

Definition has_root (p : path) : bool :=
  match p with
  | a :: _ => String.prefix "/" a
  | [] => false
  end.

(** [p / name]: a name with a root replaces [p], any other adds its
    components.  The name of a directory entry adds itself. *)
Definition joinpath (p : path) (name : string) : path :=
  let q := Path name in
  if has_root q then q else p ++ q.

(** [str(p)]: the root, then the components joined by the separator; the
    path without parts is the dot. *)
Definition path_str (p : path) : string :=
  match p with
  | [] => "."
  | a :: r =>
      if String.prefix "/" a then (a ++ String.concat "/" r)%string
      else String.concat "/" p
  end.


(** ** The file system and [os.walk] *)

(** What the file system answers about a name [os.walk] files under
    [files], an entry for which [entry.is_dir()] is false. *)
Record file_entry := FileEntry {
  fe_link : bool;
    (** the entry is a symbolic link *)
  fe_lstat : option exn;
    (** the error [lstat()] raises on the path, if it raises *)
  fe_stat : outcome N
    (** [filepath.stat().st_size]; [stat()] follows symbolic links *)
}.

(** [filepath.is_symlink()] as [pathlib] has it up to Python 3.13: the answer
    of [lstat()]; [False] when [lstat()] raises an [OSError] that
    [_ignore_error] accepts or a [ValueError]; any other exception of
    [lstat()] is raised again. *)
Definition is_symlink (fe : file_entry) : outcome bool :=
  match fe_lstat fe with
  | None => Ok (fe_link fe)
  | Some e =>
      if is_OSError e then (if ignore_error e then Ok false else Raise e)
      else if is_ValueError e then Ok false
      else Raise e
  end.

(** An entry of a directory. *)
#[local] Set Warnings "-register-all".
Inductive node :=
| Leaf (fe : file_entry)
    (** an entry that goes to [files]: a regular file, a symbolic link to a
        file or to nothing, a name that cannot be looked at *)
| LinkToDir (target : list (string * node))
    (** a symbolic link that [entry.is_dir()] follows to a directory with
        these entries; it goes to [dirs] *)
| Dir (listable : bool) (entries : list (string * node)).
    (** a real directory; listing it can fail *)
#[local] Set Warnings "register-all".

Definition no_such_file : exn := Exn FileNotFoundError "[Errno 2] No such file or directory".

(** A regular file.  [lstat()] and [stat()] are the same call on it: they
    return, or raise, together. *)
Definition File (st_size : outcome N) : node :=
  Leaf (FileEntry false (error_of st_size) st_size).

(** A symbolic link that can be looked at, with what [stat()] finds behind
    it. *)
Definition LinkToFile (st_size : outcome N) : node :=
  Leaf (FileEntry true None st_size).


(** The entries [os.walk] files under [files]: everything for which
    [entry.is_dir()], which follows symbolic links, is false. *)
Definition as_file (n : node) : option file_entry :=
  match n with
  | Leaf fe => Some fe
  | LinkToDir _ | Dir _ _ => None
  end.

Definition is_dir (n : node) : bool :=
  match as_file n with Some _ => false | None => true end.

Fixpoint dirs_of (es : list (string * node)) : list string :=
  match es with
  | [] => []
  | (name, n) :: r => if is_dir n then name :: dirs_of r else dirs_of r
  end.

Fixpoint files_of (es : list (string * node)) : list (string * file_entry) :=
  match es with
  | [] => []
  | (name, n) :: r =>
      match as_file n with
      | Some fe => (name, fe) :: files_of r
      | None => files_of r
      end
  end.

(** One step of [os.walk]: the triple [(root, dirs, files)] of a directory,
    with [root] as the path [Path(root)] makes of it. *)
Definition triple : Type := path * list string * list (string * file_entry).

(** [os.walk(top)] with its defaults: top-down, [onerror=None] (a directory
    that cannot be listed yields nothing) and [followlinks=False] (a symbolic
    link to a directory is named in [dirs] and not descended into). *)
Fixpoint walk (top : path) (n : node) : list triple :=
  match n with
  | Dir true es =>
      (top, dirs_of es, files_of es)
        :: flat_map (fun e => walk (joinpath top (fst e)) (snd e)) es
  | _ => []
  end.

(** Induction over a tree, with the property at hand for every entry of a
    real directory. *)
Section NodeInduction.
Variable P : node -> Prop.
Hypothesis HLeaf : forall fe, P (Leaf fe).
Hypothesis HLinkToDir : forall target, P (LinkToDir target).
Hypothesis HDir :
  forall l es, Forall (fun e => P (snd e)) es -> P (Dir l es).

Fixpoint node_induction (n : node) : P n :=
  match n with
  | Leaf fe => HLeaf fe
  | LinkToDir target => HLinkToDir target
  | Dir l es =>
      HDir l es
        ((fix entries (es : list (string * node)) : Forall (fun e => P (snd e)) es :=
            match es with
            | [] => Forall_nil _
            | e :: r => Forall_cons e (node_induction (snd e)) (entries r)
            end) es)
  end.
End NodeInduction.

(** ** [scan_directory] *)

(** What the scan does to the world, in order: the [stat] calls, the
    classifier calls and the lines written to standard error. *)
Inductive event :=
| EvStat (p : path)
| EvIdentify (p : path)
| EvStderr (line : string).

(** The stubbed classifier: [magika.identify_path(p).output.label]. *)
Definition classifier := path -> outcome string.

(** The clause [except (OSError, PermissionError)]. *)
Definition caught (e : exn) : bool := is_OSError e || is_PermissionError e.

Definition warning (p : path) (e : exn) : string :=
  ("Warning: Could not process " ++ path_str p ++ ": " ++ exn_msg e)%string.

(** The body of the [try] for one file: the events it causes and the
    accumulator it leaves, or the exception that ends it. *)
Definition try_body (magika : classifier) (sizes : dict) (filepath : path)
    (fe : file_entry) : list event * outcome dict :=
  match fe_stat fe with
  | Raise e => ([EvStat filepath], Raise e)
  | Ok file_size =>
      match magika filepath with
      | Raise e => ([EvStat filepath; EvIdentify filepath], Raise e)
      | Ok file_type =>
          ([EvStat filepath; EvIdentify filepath],
           Ok (dict_add sizes file_type (Z.of_N file_size)))
      end
  end.

(** One turn of the inner loop.  [Ok] is the accumulator after the turn;
    [Raise] is an exception that leaves the loop: one [is_symlink()] raises,
    which is called before the [try], or one of the [try] that the [except]
    clause does not catch. *)
Definition process_file (magika : classifier) (sizes : dict) (root : path)
    (f : string * file_entry) : list event * outcome dict :=
  let filepath := joinpath root (fst f) in
  match is_symlink (snd f) with
  | Raise e => ([], Raise e)
  | Ok true => ([], Ok sizes)
  | Ok false =>
      match try_body magika sizes filepath (snd f) with
      | (evs, Ok sizes') => (evs, Ok sizes')
      | (evs, Raise e) =>
          if caught e then (evs ++ [EvStderr (warning filepath e)], Ok sizes)
          else (evs, Raise e)
      end
  end.

(** The inner loop [for filename in files]. *)
Fixpoint process_files (magika : classifier) (sizes : dict) (root : path)
    (files : list (string * file_entry)) : list event * outcome dict :=
  match files with
  | [] => ([], Ok sizes)
  | f :: rest =>
      match process_file magika sizes root f with
      | (evs, Ok sizes') =>
          let '(evs', r) := process_files magika sizes' root rest in
          (evs ++ evs', r)
      | (evs, Raise e) => (evs, Raise e)
      end
  end.

(** The outer loop [for root, _, files in os.walk(directory)]. *)
Fixpoint process_walk (magika : classifier) (sizes : dict)
    (w : list triple) : list event * outcome dict :=
  match w with
  | [] => ([], Ok sizes)
  | (root, _, files) :: rest =>
      match process_files magika sizes root files with
      | (evs, Ok sizes') =>
          let '(evs', r) := process_walk magika sizes' rest in
          (evs ++ evs', r)
      | (evs, Raise e) => (evs, Raise e)
      end
  end.

(** [scan_directory(directory, magika)]: the events of the scan and the dict
    it returns, or the exception that leaves it. *)
Definition scan_directory (directory : path) (tree : node) (magika : classifier)
    : list event * outcome dict :=
  process_walk magika [] (walk directory tree).

(** ** Python numbers *)

(** binary64. *)
Definition prec : Z := 53.
Definition emax : Z := 1024.

(** [float(n)] for an [int]: the nearest double, ties to even; a value that
    rounds beyond the largest double raises. *)
Definition float_of_int (n : Z) : outcome spec_float :=
  match binary_normalize prec emax n 0 false with
  | S754_infinity _ => Raise (Exn OverflowError "int too large to convert to float")
  | x => Ok x
  end.

(** The doubles behind the literal [1024.0] and the [int] [100]. *)
Definition f1024 : spec_float := S754_finite false 4503599627370496 (-42).
Definition f100 : spec_float := S754_finite false 7036874417766400 (-46).

(** An [int] as an exact binary fraction, before any rounding. *)
Definition exact_of_int (n : Z) : spec_float :=
  match n with
  | Z0 => S754_zero false
  | Zpos p => S754_finite false p 0
  | Zneg p => S754_finite true p 0
  end.

(** [a / b] on two [int]s: the correctly rounded quotient. *)
Definition int_truediv (a b : Z) : outcome spec_float :=
  if (b =? 0)%Z then Raise (Exn ZeroDivisionError "division by zero")
  else
    match SFdiv prec emax (exact_of_int a) (exact_of_int b) with
    | S754_infinity _ =>
        Raise (Exn OverflowError "integer division result too large for a float")
    | x => Ok x
    end.

(** What [size_bytes] holds in [format_size]: the [int] it is called with,
    a [float] after the first division. *)
Inductive num :=
| PyInt (n : Z)
| PyFloat (x : spec_float).

(** [x < 1024.0]; Python compares an [int] with a [float] exactly. *)
Definition lt_1024 (x : num) : bool :=
  match x with
  | PyInt n => (n <? 1024)%Z
  | PyFloat x => SFltb x f1024
  end.

(** [x / 1024.0]. *)
Definition div_1024 (x : num) : outcome num :=
  match x with
  | PyInt n => x <- float_of_int n ;; Ok (PyFloat (SFdiv prec emax x f1024))
  | PyFloat x => Ok (PyFloat (SFdiv prec emax x f1024))
  end.

(** ** The format [.2f] *)

Definition string_of_N (n : N) : string := NilZero.string_of_uint (N.to_uint n).

Definition digit (n : N) : string := string_of_N (n mod 10).

(** [m * 100 * 2^e] rounded to the nearest integer, ties to even: the value
    of a double in hundredths. *)
Definition hundredths (m : positive) (e : Z) : N :=
  let x := (Z.pos m * 100)%Z in
  match e with
  | Zneg p =>
      let d := Z.pow_pos 2 p in
      let q := Z.div x d in
      let r := Z.modulo x d in
      Z.to_N
        match Z.compare (2 * r) d with
        | Lt => q
        | Gt => q + 1
        | Eq => if Z.even q then q else q + 1
        end
  | _ => Z.to_N (x * 2 ^ e)
  end.

(** A count of hundredths as [<integer part>.<two digits>]. *)
Definition two_decimals (h : N) : string :=
  (string_of_N (h / 100) ++ "." ++ digit (h / 10) ++ digit h)%string.

Definition sign_str (s : bool) : string := if s then "-" else "".

(** [f"{x:.2f}"] for a [float]. *)
Definition format_2f (x : spec_float) : string :=
  match x with
  | S754_nan => "nan"
  | S754_infinity s => (sign_str s ++ "inf")%string
  | S754_zero s => (sign_str s ++ "0.00")%string
  | S754_finite s m e => (sign_str s ++ two_decimals (hundredths m e))%string
  end.

(** [f"{x:.2f}"] for what [size_bytes] holds; an [int] is converted first. *)
Definition format_num (x : num) : outcome string :=
  match x with
  | PyInt n => x <- float_of_int n ;; Ok (format_2f x)
  | PyFloat x => Ok (format_2f x)
  end.

(** ** [format_size] *)

Definition units : list string := ["B"; "KB"; "MB"; "GB"; "TB"].

(** The loop [for unit in units], with what follows it. *)
Fixpoint format_size_loop (us : list string) (size_bytes : num) : outcome string :=
  match us with
  | [] => s <- format_num size_bytes ;; Ok (s ++ " PB")%string
  | unit :: rest =>
      if lt_1024 size_bytes then
        s <- format_num size_bytes ;; Ok (s ++ " " ++ unit)%string
      else
        size_bytes' <- div_1024 size_bytes ;; format_size_loop rest size_bytes'
  end.

Definition format_size (size_bytes : Z) : outcome string :=
  format_size_loop units (PyInt size_bytes).

(** ** [display_results] *)

Definition spaces (n : nat) : string := String.concat "" (repeat " " n).

(** [f"{s:<w}"] and [f"{s:>w}"]: padding to a width, never cutting.  The
    width counts characters; labels and figures are ASCII. *)
Definition ljust (w : nat) (s : string) : string :=
  (s ++ spaces (w - String.length s))%string.
Definition rjust (w : nat) (s : string) : string :=
  (spaces (w - String.length s) ++ s)%string.

Definition newline : string := String (ascii_of_nat 10) "".

(** ["=" * 70]. *)
Definition rule : string := String.concat "" (repeat "=" 70).

Definition header_row : string :=
  (ljust 30 "File Type" ++ " " ++ ljust 20 "Size" ++ " " ++ rjust 10 "Percentage")%string.

(** [sorted(items, key=lambda x: x[1], reverse=True)]: descending by value,
    items of equal value in the order they had. *)
Fixpoint insert_desc (x : string * Z) (l : list (string * Z)) : list (string * Z) :=
  match l with
  | [] => [x]
  | y :: r => if (snd x <? snd y)%Z then y :: insert_desc x r else x :: y :: r
  end.

Fixpoint sorted_desc (l : list (string * Z)) : list (string * Z) :=
  match l with
  | [] => []
  | x :: r => insert_desc x (sorted_desc r)
  end.

(** [(size / total_size) * 100]. *)
Definition percentage (size total_size : Z) : outcome spec_float :=
  q <- int_truediv size total_size ;; Ok (SFmul prec emax q f100).

(** The line one turn of the loop over [sorted_items] prints. *)
Definition row (total_size : Z) (item : string * Z) : outcome string :=
  let '(file_type, size) := item in
  pct <- percentage size total_size ;;
  formatted_size <- format_size size ;;
  Ok (ljust 30 file_type ++ " " ++ ljust 20 formatted_size ++ " "
        ++ rjust 9 (format_2f pct) ++ "%")%string.

(** The loop over [sorted_items]: the lines printed, and how the loop ends. *)
Fixpoint print_rows (total_size : Z) (items : list (string * Z))
    : list string * outcome unit :=
  match items with
  | [] => ([], Ok tt)
  | item :: rest =>
      match row total_size item with
      | Raise e => ([], Raise e)
      | Ok line =>
          let '(out, r) := print_rows total_size rest in (line :: out, r)
      end
  end.

Definition total_row (formatted_total : string) : string :=
  (ljust 30 "Total" ++ " " ++ ljust 20 formatted_total ++ " " ++ rjust 10 "100.00%")%string.

(** The three [print] calls after the loop. *)
Definition print_total (total_size : Z) : list string * outcome unit :=
  match format_size total_size with
  | Raise e => ([rule], Raise e)
  | Ok t => ([rule; total_row t; (rule ++ newline)%string], Ok tt)
  end.

(** [display_results(file_type_sizes)]: the arguments of its [print] calls in
    order, and whether it returns or raises. *)
Definition display_results (file_type_sizes : dict) : list string * outcome unit :=
  match file_type_sizes with
  | [] => (["No files found."], Ok tt)
  | _ =>
      let total_size := sum (values file_type_sizes) in
      let head := [(newline ++ rule)%string; header_row; rule] in
      let sorted_items := sorted_desc file_type_sizes in
      match print_rows total_size sorted_items with
      | (out, Raise e) => (head ++ out, Raise e)
      | (out, Ok _) =>
          let '(out', r) := print_total total_size in
          (head ++ out ++ out', r)
      end
  end.

(** ** [main] *)

(** What the path given on the command line denotes.  [Unreachable e] is a
    path [stat()] fails on with an error [exists()] raises again: an
    [OSError] that [_ignore_error] does not accept, as EACCES is. *)
Inductive target :=
| Missing
| NotADirectory
| Unreachable (e : exn)
| Directory (listable : bool) (entries : list (string * node)).

(** What a run of the program leaves behind. *)
Record run := Run {
  stdout : list string;
  stderr : list string;
  exit_code : Z
}.

Fixpoint stderr_of (evs : list event) : list string :=
  match evs with
  | [] => []
  | EvStderr line :: r => line :: stderr_of r
  | _ :: r => stderr_of r
  end.

(** What the interpreter writes for an exception nobody caught; the frames
    between the first and the last line are left out. *)
Definition traceback (e : exn) : list string :=
  ["Traceback (most recent call last):";
   (class_name (exn_cls e) ++ ": " ++ exn_msg e)%string].

(** [main()], with [arg] the optional positional argument, [fs] what the
    file system holds under a path string and [magika] the classifier
    [Magika()] builds. *)
Definition main (arg : option string) (fs : string -> target)
    (magika : classifier) : run :=
  let directory := Path (match arg with Some d => d | None => "." end) in
  match fs (path_str directory) with
  | Missing =>
      Run [] [("Error: Directory '" ++ path_str directory ++ "' does not exist.")%string] 1
  | NotADirectory =>
      Run [] [("Error: '" ++ path_str directory ++ "' is not a directory.")%string] 1
  | Unreachable e => Run [] (traceback e) 1
  | Directory listable entries =>
      match scan_directory directory (Dir listable entries) magika with
      | (evs, Raise e) => Run [] (stderr_of evs ++ traceback e) 1
      | (evs, Ok file_type_sizes) =>
          match display_results file_type_sizes with
          | (out, Raise e) => Run out (stderr_of evs ++ traceback e) 1
          | (out, Ok _) => Run out (stderr_of evs) 0
          end
      end
  end.

(** ** The vocabulary of the properties *)

(** The files of a walk in the order the two loops visit them, each under
    the path [Path(root) / filename]. *)
Definition visited (w : list triple) : list (path * file_entry) :=
  flat_map (fun t => map (fun f => (joinpath (fst (fst t)) (fst f), snd f)) (snd t)) w.

(** What becomes of one visited file. *)
Inductive fate :=
| Skipped                               (** [is_symlink()] answered [True] *)
| Failed (e : exn)                      (** [stat] or the classifier raised [e] *)
| Counted (label : string) (size : Z)   (** sized and labelled *)
| Broke (e : exn).                      (** [is_symlink()] raised [e] *)

Definition fate_of (magika : classifier) (f : path * file_entry) : fate :=
  match is_symlink (snd f) with
  | Raise e => Broke e
  | Ok true => Skipped
  | Ok false =>
      match fe_stat (snd f) with
      | Raise e => Failed e
      | Ok size =>
          match magika (fst f) with
          | Raise e => Failed e
          | Ok label => Counted label (Z.of_N size)
          end
      end
  end.

(** The (label, size) pairs of the successfully processed files. *)
Fixpoint counted (magika : classifier) (fs : list (path * file_entry))
    : list (string * Z) :=
  match fs with
  | [] => []
  | f :: r =>
      match fate_of magika f with
      | Counted label size => (label, size) :: counted magika r
      | _ => counted magika r
      end
  end.

(** The files that failed inside the [try], each with the exception it
    raised. *)
Fixpoint failures (magika : classifier) (fs : list (path * file_entry))
    : list (path * exn) :=
  match fs with
  | [] => []
  | f :: r =>
      match fate_of magika f with
      | Failed e => (fst f, e) :: failures magika r
      | _ => failures magika r
      end
  end.

(** The warning of each failed file. *)
Definition warnings (fails : list (path * exn)) : list string :=
  map (fun pe => warning (fst pe) (snd pe)) fails.

(** The exception that leaves the loop at a file, if one does: what
    [is_symlink()] raises, or what the [try] raises and the [except] clause
    does not catch. *)
Definition escapes (magika : classifier) (f : path * file_entry) : option exn :=
  match fate_of magika f with
  | Broke e => Some e
  | Failed e => if caught e then None else Some e
  | _ => None
  end.

(** No exception leaves the loop at the file: [is_symlink()] answers, and
    what the [try] raises the [except] clause catches. *)
Definition handled (magika : classifier) (f : path * file_entry) : bool :=
  match fate_of magika f with
  | Failed e => caught e
  | Broke _ => false
  | _ => true
  end.

(** Adding (label, size) pairs to an accumulator one after the other. *)
Definition accumulate (d : dict) (l : list (string * Z)) : dict :=
  fold_left (fun d c => dict_add d (fst c) (snd c)) l d.

(** The sizes that go under one label. *)
Definition sizes_of (label : string) (l : list (string * Z)) : list Z :=
  map snd (filter (fun c => String.eqb (fst c) label) l).

(** [d1 == d2] on dicts: the same keys with the same values. *)
Definition dict_eq (d1 d2 : dict) : Prop :=
  forall k, dict_get d1 k = dict_get d2 k.

(** The inner loops of a walk flattened into one loop over [visited]. *)
Fixpoint process_visited (magika : classifier) (sizes : dict)
    (fs : list (path * file_entry)) : list event * outcome dict :=
  match fs with
  | [] => ([], Ok sizes)
  | f :: rest =>
      match fate_of magika f with
      | Skipped => process_visited magika sizes rest
      | Broke e => ([], Raise e)
      | Counted label size =>
          let '(evs, r) := process_visited magika (dict_add sizes label size) rest in
          (EvStat (fst f) :: EvIdentify (fst f) :: evs, r)
      | Failed e =>
          let evs0 :=
            match fe_stat (snd f) with
            | Raise _ => [EvStat (fst f)]
            | Ok _ => [EvStat (fst f); EvIdentify (fst f)]
            end in
          if caught e then
            let '(evs, r) := process_visited magika sizes rest in
            (evs0 ++ EvStderr (warning (fst f) e) :: evs, r)
          else (evs0, Raise e)
      end
  end.

(** A visited file [is_symlink()] answered [True] for. *)
Definition passed_over (f : path * file_entry) : bool :=
  match is_symlink (snd f) with
  | Ok true => true
  | _ => false
  end.

(** A visited file [is_symlink()] answered [False] for: the files the [try]
    is entered for. *)
Definition real (f : path * file_entry) : bool :=
  match is_symlink (snd f) with
  | Ok false => true
  | _ => false
  end.


(** [lstat()] on the entry reports a path that is not there: it raises
    what [is_symlink()] turns into [False]. *)
Definition not_there (fe : file_entry) : bool :=
  match fe_lstat fe with
  | Some e => (is_OSError e && ignore_error e) || (negb (is_OSError e) && is_ValueError e)
  | None => false
  end.

(** An entry of a directory the scan sees as a symbolic link: a link to a
    directory, which [os.walk] does not descend into, or a name
    [is_symlink()] answers [True] for. *)
Definition is_link (n : node) : bool :=
  match n with
  | Leaf fe => match is_symlink fe with Ok true => true | _ => false end
  | LinkToDir _ => true
  | Dir _ _ => false
  end.

(** A tree with these entries taken out of every directory. *)
Fixpoint prune (n : node) : node :=
  match n with
  | Dir l es =>
      Dir l (flat_map
               (fun e => if is_link (snd e) then [] else [(fst e, prune (snd e))])
               es)
  | _ => n
  end.

(** A double that is a number: not an infinity, not a NaN. *)
Definition is_number (x : spec_float) : bool :=
  match x with
  | S754_zero _ | S754_finite _ _ _ => true
  | S754_infinity _ | S754_nan => false
  end.

(** [a / b] rounded to the nearest integer, ties to the even one. *)
Definition round_half_even (a b : Z) : Z :=
  let q := a / b in
  let r := a mod b in
  match 2 * r ?= b with
  | Lt => q
  | Gt => q + 1
  | Eq => if Z.even q then q else q + 1
  end.

(** How often [1024] goes into a size, five times at most: the place of its
    unit in B, KB, MB, GB, TB, PB. *)
Definition unit_index (n : Z) : nat :=
  if n <? 1024 then 0%nat
  else if n <? 1024 ^ 2 then 1%nat
  else if n <? 1024 ^ 3 then 2%nat
  else if n <? 1024 ^ 4 then 3%nat
  else if n <? 1024 ^ 5 then 4%nat
  else 5%nat.

Definition unit_name (k : nat) : string := nth k units "PB".

(** The size [n / 1024^k] with two decimals, rounded from the exact quotient. *)
Definition scaled_2f (n : Z) (k : nat) : string :=
  two_decimals (Z.to_N (round_half_even (n * 100) (1024 ^ Z.of_nat k))).

(** [x] divided by [1024.0] [k] times. *)
Fixpoint divided (x : spec_float) (k : nat) : spec_float :=
  match k with
  | O => x
  | S k' => SFdiv prec emax (divided x k') f1024
  end.


(** The three lines above the rows of the table. *)
Definition head_lines : list string := [(newline ++ rule)%string; header_row; rule].

(** [line] is the row of [item] in a report with the total [total]: its
    label, its size as [format_size] prints it and, with two decimals, a
    count [h] of hundredths of a percent.  The count is less than one away
    from the exact [10000 * size / total], so at most one away from that
    quotient rounded to the nearest integer; it is the one [.2f] prints
    for the double [(size / total) * 100]. *)
Definition row_of (total : Z) (item : string * Z) (line : string) : Prop :=
  exists (h : N) (formatted_size : string),
    format_size (snd item) = Ok formatted_size
    /\ line = (ljust 30 (fst item) ++ " " ++ ljust 20 formatted_size ++ " "
                 ++ rjust 9 (two_decimals h) ++ "%")%string
    /\ Z.abs (Z.of_N h * total - 10000 * snd item) < total
    /\ Z.abs (Z.of_N h - round_half_even (10000 * snd item) total) <= 1
    /\ exists q,
         int_truediv (snd item) total = Ok q
         /\ format_2f (SFmul prec emax q f100) = two_decimals h.

(** Largest value first. *)
Definition descending (l : list (string * Z)) : Prop :=
  StronglySorted (fun a b => snd b <= snd a) l.

(** A dict as a scan leaves it: no value is negative. *)
Definition byte_counts (d : dict) : Prop := Forall (fun kv => 0 <= snd kv) d.

Definition division_by_zero : exn := Exn ZeroDivisionError "division by zero".

(** A directory that holds nothing but an empty file. *)
Definition empty_file_dir : target := Directory true [("empty.bin", File (Ok 0%N))].

Definition say_empty : classifier := fun _ => Ok "empty".

(** Two sizes of a directory of about 893 GiB. *)
Definition big_dict : dict := [("video", 921925914561); ("text", 36965254570)].

(** The paths [stat()] was called on, in order. *)
Fixpoint stat_calls (evs : list event) : list path :=
  match evs with
  | [] => []
  | EvStat p :: r => p :: stat_calls r
  | _ :: r => stat_calls r
  end.

(** The paths the classifier was called on, in order. *)
Fixpoint identify_calls (evs : list event) : list path :=
  match evs with
  | [] => []
  | EvIdentify p :: r => p :: identify_calls r
  | _ :: r => identify_calls r
  end.

(** A visited file [is_symlink()] answered [False] for and whose size could
    be read. *)
Definition sized (f : path * file_entry) : bool :=
  real f && is_ok (fe_stat (snd f)).

(** The distinct labels of a list, each at the place of its first
    occurrence. *)
Fixpoint first_seen (l : list string) : list string :=
  match l with
  | [] => []
  | x :: r => x :: filter (fun k => negb (String.eqb k x)) (first_seen r)
  end.

(** The doubles [1.0] and [100.0]. *)
Definition f1 : spec_float := S754_finite false 4503599627370496 (-52).

Definition int_too_large : exn := Exn OverflowError "int too large to convert to float".

(** ** A directory to try things on *)

Definition permission_denied : exn := Exn PermissionError "[Errno 13] Permission denied".

(** Two text files, an image, a file the classifier fails on with a
    [PermissionError], a file that is gone by the time it is looked at, a
    symbolic link to a file and one to a directory. *)
Definition example_entries : list (string * node) :=
  [("a.txt", File (Ok 500%N));
   ("sub", Dir true [("b.txt", File (Ok 1500%N));
                     ("c.png", File (Ok 2048%N));
                     ("locked", File (Ok 64%N));
                     ("gone", File (Raise no_such_file))]);
   ("link", LinkToFile (Ok 500%N));
   ("linked_dir", LinkToDir [("z.bin", File (Ok 7%N))])].

Definition example_magika : classifier :=
  fun p =>
    match p with
    | [_; "a.txt"] => Ok "text"
    | [_; _; "b.txt"] => Ok "text"
    | [_; _; "c.png"] => Ok "image"
    | [_; _; "locked"] => Raise permission_denied
    | _ => Raise (Exn (OSError 5) "[Errno 5] Input/output error")
    end.

(** A classifier that raises something other than an [OSError]. *)
Definition value_error : exn := Exn ValueError "bad input".

Definition failing_magika : classifier :=
  fun p =>
    match p with
    | [_; "a.txt"] => Raise value_error
    | _ => Ok "text"
    end.

Definition two_files : list (string * node) :=
  [("a.txt", File (Ok 500%N)); ("b.txt", File (Ok 1500%N))].

(** A file that is gone when it is looked at: [lstat()] and [stat()] both
    find nothing. *)
Definition gone : file_entry := FileEntry false (Some no_such_file) (Raise no_such_file).

(** A directory that can be listed and not searched (mode [r--]): every
    [lstat()] and [stat()] below it is refused. *)
Definition unsearchable : list (string * node) :=
  [("f.txt", File (Raise permission_denied));
   ("l", Leaf (FileEntry true (Some permission_denied) (Raise permission_denied)))].

(** * Properties *)

(** ** Sums and the accumulator *)

Lemma fold_add_acc (l : list Z) (a : Z) :
  fold_left Z.add l a = a + fold_left Z.add l 0.
Proof.
  revert a; induction l as [|x l IH]; intros a; simpl.
  - lia.
  - rewrite IH, (IH x). lia.
Qed.

Lemma sum_cons (x : Z) (l : list Z) : sum (x :: l) = x + sum l.
Proof. unfold sum; simpl. apply fold_add_acc. Qed.

Lemma sum_values_add (d : dict) (k : string) (v : Z) :
  sum (values (dict_add d k v)) = sum (values d) + v.
Proof.
  induction d as [|[k' v'] d IH]; simpl.
  - reflexivity.
  - destruct (String.eqb k' k); unfold values in *; simpl; rewrite !sum_cons.
    + lia.
    + rewrite IH. lia.
Qed.

Lemma dict_get_add (d : dict) (k k' : string) (v : Z) :
  dict_get (dict_add d k v) k' =
  if String.eqb k k' then Some (size_of d k + v) else dict_get d k'.
Proof.
  unfold size_of.
  induction d as [|[k0 v0] d IH]; simpl.
  - rewrite (String.eqb_sym k k'). destruct (String.eqb k' k); reflexivity.
  - destruct (String.eqb k0 k) eqn:E0; simpl.
    + apply String.eqb_eq in E0; subst k0.
      destruct (String.eqb k k'); reflexivity.
    + rewrite IH. destruct (String.eqb k k') eqn:E1.
      * apply String.eqb_eq in E1; subst k'. rewrite E0. reflexivity.
      * reflexivity.
Qed.

Lemma sum_values_accumulate (l : list (string * Z)) (d : dict) :
  sum (values (accumulate d l)) = sum (values d) + sum (map snd l).
Proof.
  revert d; induction l as [|[k v] l IH]; intros d; simpl.
  - unfold sum at 3; simpl. lia.
  - unfold accumulate in *; simpl. rewrite IH, sum_values_add, sum_cons. lia.
Qed.

(** ** The scan as one loop over the visited files *)

Lemma process_visited_app magika (l1 l2 : list (path * file_entry)) (sizes : dict) :
  process_visited magika sizes (l1 ++ l2) =
  match process_visited magika sizes l1 with
  | (evs, Ok sizes') =>
      let '(evs', r) := process_visited magika sizes' l2 in (evs ++ evs', r)
  | (evs, Raise e) => (evs, Raise e)
  end.
Proof.
  revert sizes; induction l1 as [|f l1 IH]; intros sizes; simpl.
  - destruct (process_visited magika sizes l2); reflexivity.
  - destruct (fate_of magika f) as [|e|label size|e].
    + apply IH.
    + destruct (caught e); [|reflexivity].
      rewrite IH.
      destruct (process_visited magika sizes l1) as [evs [s'|e']].
      * destruct (process_visited magika s' l2) as [evs' r].
        rewrite <- app_assoc. reflexivity.
      * reflexivity.
    + rewrite IH.
      destruct (process_visited magika (dict_add sizes label size) l1) as [evs [s'|e']].
      * destruct (process_visited magika s' l2) as [evs' r]. reflexivity.
      * reflexivity.
    + reflexivity.
Qed.

Lemma process_file_visited magika sizes root (f : string * file_entry) :
  process_file magika sizes root f =
  process_visited magika sizes [(joinpath root (fst f), snd f)].
Proof.
  unfold process_file, try_body, process_visited, fate_of; cbn [fst snd].
  destruct (is_symlink (snd f)) as [[|]|e]; try reflexivity.
  destruct (fe_stat (snd f)) as [size|e].
  - destruct (magika (joinpath root (fst f))) as [label|e].
    + reflexivity.
    + destruct (caught e); reflexivity.
  - destruct (caught e); reflexivity.
Qed.

Lemma process_files_visited magika root (files : list (string * file_entry)) sizes :
  process_files magika sizes root files =
  process_visited magika sizes (map (fun f => (joinpath root (fst f), snd f)) files).
Proof.
  revert sizes; induction files as [|f files IH]; intros sizes.
  - reflexivity.
  - cbn [process_files map].
    change ((joinpath root (fst f), snd f)
              :: map (fun f => (joinpath root (fst f), snd f)) files)
      with ([(joinpath root (fst f), snd f)]
              ++ map (fun f => (joinpath root (fst f), snd f)) files).
    rewrite process_visited_app, <- process_file_visited.
    destruct (process_file magika sizes root f) as [evs [s'|e]].
    + rewrite IH. reflexivity.
    + reflexivity.
Qed.

Lemma process_walk_visited magika (w : list triple) sizes :
  process_walk magika sizes w = process_visited magika sizes (visited w).
Proof.
  revert sizes; induction w as [|[[root ds] files] w IH]; intros sizes.
  - reflexivity.
  - cbn [process_walk visited flat_map fst snd].
    rewrite process_visited_app, <- process_files_visited.
    destruct (process_files magika sizes root files) as [evs [s'|e]].
    + change (flat_map _ w) with (visited w). rewrite IH. reflexivity.
    + reflexivity.
Qed.

Lemma stderr_of_app (l1 l2 : list event) :
  stderr_of (l1 ++ l2) = stderr_of l1 ++ stderr_of l2.
Proof.
  induction l1 as [|[p|p|line] l1 IH]; simpl; rewrite ?IH; reflexivity.
Qed.

(** When no exception leaves the loop it runs to its end: it leaves the
    accumulation of the counted files and one warning per failed file. *)
Lemma process_visited_handled magika (fs : list (path * file_entry)) sizes :
  forallb (handled magika) fs = true ->
  exists evs,
    process_visited magika sizes fs = (evs, Ok (accumulate sizes (counted magika fs)))
    /\ stderr_of evs = warnings (failures magika fs).
Proof.
  revert sizes; induction fs as [|f fs IH]; intros sizes H.
  - exists []. split; reflexivity.
  - simpl in H. apply andb_prop in H as [Hf H].
    unfold handled in Hf. simpl.
    destruct (fate_of magika f) as [|e|label size|e].
    + apply IH, H.
    + rewrite Hf. destruct (IH sizes H) as [evs [E1 E2]]. rewrite E1.
      eexists; split; [reflexivity|].
      rewrite stderr_of_app; simpl. rewrite E2.
      destruct (fe_stat (snd f)); reflexivity.
    + destruct (IH (dict_add sizes label size) H) as [evs [E1 E2]]. rewrite E1.
      eexists; split; [reflexivity|]. simpl. exact E2.
    + discriminate.
Qed.


Lemma dict_get_accumulate (l : list (string * Z)) (d : dict) (k : string) :
  dict_get (accumulate d l) k =
  match dict_get d k with
  | Some v => Some (v + sum (sizes_of k l))
  | None =>
      if existsb (fun c => String.eqb (fst c) k) l
      then Some (sum (sizes_of k l)) else None
  end.
Proof.
  revert d; induction l as [|[k0 v0] l IH]; intros d.
  - unfold sizes_of, sum; simpl. destruct (dict_get d k); f_equal; lia.
  - unfold accumulate in *; cbn [fold_left fst snd existsb].
    rewrite IH, dict_get_add. unfold sizes_of; cbn [filter fst snd map].
    destruct (String.eqb k0 k) eqn:E; cbn [orb map snd].
    + apply String.eqb_eq in E; subst k0. unfold size_of.
      rewrite sum_cons. destruct (dict_get d k); f_equal; lia.
    + destruct (dict_get d k); reflexivity.
Qed.

Lemma keys_add (d : dict) (k : string) (v : Z) :
  keys (dict_add d k v) = if existsb (String.eqb k) (keys d) then keys d else keys d ++ [k].
Proof.
  induction d as [|[k0 v0] d IH]; simpl.
  - reflexivity.
  - rewrite (String.eqb_sym k k0). destruct (String.eqb k0 k); simpl.
    + reflexivity.
    + unfold keys in *. rewrite IH. destruct (existsb (String.eqb k) (map fst d)); reflexivity.
Qed.

Lemma existsb_eqb_In (k : string) (l : list string) :
  existsb (String.eqb k) l = true <-> In k l.
Proof.
  rewrite existsb_exists. split.
  - intros [x [Hx E]]. apply String.eqb_eq in E. subst. exact Hx.
  - intros H. exists k. split; [exact H | apply String.eqb_refl].
Qed.

(** The keys of an accumulator stay unique. *)
Lemma NoDup_keys_add (d : dict) (k : string) (v : Z) :
  NoDup (keys d) -> NoDup (keys (dict_add d k v)).
Proof.
  intros H. rewrite keys_add.
  destruct (existsb (String.eqb k) (keys d)) eqn:E; [exact H|].
  apply NoDup_app; [exact H | repeat constructor; simpl; tauto |].
  intros x Hx [<-|[]]. apply existsb_eqb_In in Hx. congruence.
Qed.

Lemma NoDup_keys_accumulate (l : list (string * Z)) (d : dict) :
  NoDup (keys d) -> NoDup (keys (accumulate d l)).
Proof.
  revert d; induction l as [|c l IH]; intros d H; [exact H|].
  apply IH, NoDup_keys_add, H.
Qed.

Lemma dict_get_In (d : dict) (k : string) (v : Z) :
  NoDup (keys d) -> (dict_get d k = Some v <-> In (k, v) d).
Proof.
  induction d as [|[k0 v0] d IH]; simpl; intros H.
  - split; [discriminate | tauto].
  - inversion H as [|? ? Hn Hd]; subst.
    destruct (String.eqb k0 k) eqn:E.
    + apply String.eqb_eq in E; subst k0. split.
      * intros [= ->]. left; reflexivity.
      * intros [[= ->]|Hin]; [reflexivity|].
        exfalso. apply Hn. apply (in_map fst) in Hin. exact Hin.
    + apply String.eqb_neq in E. rewrite (IH Hd). split.
      * tauto.
      * intros [[= -> ->]|Hin]; [congruence | exact Hin].
Qed.

Lemma NoDup_items (d : dict) : NoDup (keys d) -> NoDup d.
Proof.
  induction d as [|[k v] d IH]; intros H; [constructor|].
  inversion H as [|? ? Hn Hd]; subst. constructor.
  - intros Hin. apply Hn. apply (in_map fst) in Hin. exact Hin.
  - apply IH, Hd.
Qed.

(** Two dicts that are equal as Python compares them hold the same items. *)
Lemma dict_eq_Permutation (d1 d2 : dict) :
  NoDup (keys d1) -> NoDup (keys d2) -> dict_eq d1 d2 -> Permutation d1 d2.
Proof.
  intros H1 H2 E. apply NoDup_Permutation; try (apply NoDup_items; assumption).
  intros [k v]. rewrite <- !dict_get_In by assumption. rewrite (E k). tauto.
Qed.

Lemma sizes_of_Permutation (k : string) (l1 l2 : list (string * Z)) :
  Permutation l1 l2 -> sum (sizes_of k l1) = sum (sizes_of k l2).
Proof.
  unfold sizes_of. induction 1 as [|x l l' _ IH|x y l|l l' l'' _ IH1 _ IH2]; cbn [filter].
  - reflexivity.
  - destruct (String.eqb (fst x) k); cbn [map]; rewrite ?sum_cons; lia.
  - destruct (String.eqb (fst x) k), (String.eqb (fst y) k);
      cbn [map]; rewrite ?sum_cons; lia.
  - lia.
Qed.

Lemma existsb_Permutation {A : Type} (f : A -> bool) (l1 l2 : list A) :
  Permutation l1 l2 -> existsb f l1 = existsb f l2.
Proof.
  induction 1 as [|x l l' _ IH|x y l|l l' l'' _ IH1 _ IH2]; simpl.
  - reflexivity.
  - rewrite IH; reflexivity.
  - destruct (f x), (f y); reflexivity.
  - congruence.
Qed.

Lemma forallb_Permutation {A : Type} (f : A -> bool) (l1 l2 : list A) :
  Permutation l1 l2 -> forallb f l1 = forallb f l2.
Proof.
  induction 1 as [|x l l' _ IH|x y l|l l' l'' _ IH1 _ IH2]; simpl.
  - reflexivity.
  - rewrite IH; reflexivity.
  - destruct (f x), (f y); reflexivity.
  - congruence.
Qed.

Lemma accumulate_dict_eq (l1 l2 : list (string * Z)) :
  Permutation l1 l2 -> dict_eq (accumulate [] l1) (accumulate [] l2).
Proof.
  intros H k. rewrite !dict_get_accumulate. simpl.
  rewrite (existsb_Permutation _ _ _ H), (sizes_of_Permutation k _ _ H).
  reflexivity.
Qed.

Lemma counted_Permutation magika (fs1 fs2 : list (path * file_entry)) :
  Permutation fs1 fs2 -> Permutation (counted magika fs1) (counted magika fs2).
Proof.
  induction 1 as [|x l l' _ IH|x y l|l l' l'' _ IH1 _ IH2]; simpl.
  - constructor.
  - destruct (fate_of magika x); auto.
  - destruct (fate_of magika x), (fate_of magika y); auto using perm_swap, Permutation_refl.
  - eapply perm_trans; eassumption.
Qed.

(** ** Symbolic links *)

Lemma visited_app (w1 w2 : list triple) :
  visited (w1 ++ w2) = visited w1 ++ visited w2.
Proof. apply flat_map_app. Qed.

Lemma visited_flat_map {A : Type} (g : A -> list triple) (l : list A) :
  visited (flat_map g l) = flat_map (fun x => visited (g x)) l.
Proof.
  induction l as [|x l IH]; simpl.
  - reflexivity.
  - rewrite visited_app, IH. reflexivity.
Qed.

Lemma visited_walk_dir (top : path) (es : list (string * node)) :
  visited (walk top (Dir true es)) =
  map (fun f => (joinpath top (fst f), snd f)) (files_of es)
    ++ flat_map (fun e => visited (walk (joinpath top (fst e)) (snd e))) es.
Proof.
  cbn [walk]. unfold visited at 1. cbn [flat_map fst snd]. f_equal.
  exact (visited_flat_map _ es).
Qed.

(** The loop does for a list of files what it does for the list without the
    files [is_symlink()] answers [True] for. *)
Lemma process_visited_links magika (fs : list (path * file_entry)) sizes :
  process_visited magika sizes fs
  = process_visited magika sizes (filter (fun f => negb (passed_over f)) fs).
Proof.
  revert sizes; induction fs as [|f fs IH]; intros sizes; [reflexivity|].
  cbn [filter]. unfold passed_over at 1.
  destruct (is_symlink (snd f)) as [[|]|e] eqn:E; cbn [negb].
  - cbn [process_visited]. unfold fate_of. rewrite E. apply IH.
  - cbn [process_visited]. destruct (fate_of magika f).
    + apply IH.
    + rewrite IH. reflexivity.
    + rewrite IH. reflexivity.
    + reflexivity.
  - cbn [process_visited]. unfold fate_of. rewrite E. reflexivity.
Qed.

Lemma files_of_prune (top : path) (es : list (string * node)) :
  map (fun f => (joinpath top (fst f), snd f))
    (files_of (flat_map
       (fun e => if is_link (snd e) then [] else [(fst e, prune (snd e))]) es)) =
  filter (fun f => negb (passed_over f))
    (map (fun f => (joinpath top (fst f), snd f)) (files_of es)).
Proof.
  induction es as [|[name n] es IH]; [reflexivity|].
  destruct n as [fe|target|l es'];
    cbn [flat_map files_of as_file is_link fst snd app prune map filter].
  - unfold passed_over at 1. cbn [snd].
    destruct (is_symlink fe) as [[|]|e];
      cbn [negb app files_of as_file prune map fst snd]; rewrite IH; reflexivity.
  - exact IH.
  - exact IH.
Qed.

Lemma visited_prune (n : node) :
  forall top,
    visited (walk top (prune n))
    = filter (fun f => negb (passed_over f)) (visited (walk top n)).
Proof.
  induction n as [fe|target|l es IH] using node_induction; intros top;
    try reflexivity.
  destruct l; [|reflexivity].
  cbn [prune]. rewrite !visited_walk_dir, filter_app, files_of_prune.
  f_equal.
  induction es as [|[name n] es IHes]; [reflexivity|].
  inversion IH as [|? ? Hn Hes]; subst. cbn [snd] in Hn.
  cbn [flat_map fst snd]. rewrite filter_app, flat_map_app, (IHes Hes).
  f_equal.
  destruct n as [fe|target|l es']; cbn [is_link flat_map fst snd].
  - destruct (is_symlink fe) as [[|]|e]; reflexivity.
  - reflexivity.
  - rewrite app_nil_r. apply Hn.
Qed.


(** ** What a scan leaves in the dict *)

Lemma byte_counts_add (d : dict) (k : string) (v : Z) :
  byte_counts d -> 0 <= v -> byte_counts (dict_add d k v).
Proof.
  intros H Hv. induction H as [|[k' v'] d Hkv Hd IH]; simpl.
  - repeat constructor. simpl. lia.
  - simpl in Hkv. destruct (String.eqb k' k); constructor; simpl; auto; lia.
Qed.

Lemma process_visited_invariant magika (fs : list (path * file_entry)) :
  forall sizes evs sizes',
    process_visited magika sizes fs = (evs, Ok sizes') ->
    byte_counts sizes /\ NoDup (keys sizes) ->
    byte_counts sizes' /\ NoDup (keys sizes').
Proof.
  induction fs as [|f fs IH]; intros sizes evs sizes' E [Hb Hk]; cbn [process_visited] in E.
  - injection E as _ <-. auto.
  - unfold fate_of in E.
    destruct (is_symlink (snd f)) as [[|]|e0]; [eapply IH; eauto| |discriminate].
    destruct (fe_stat (snd f)) as [size|e].
    + destruct (magika (fst f)) as [label|e].
      * destruct (process_visited magika (dict_add sizes label (Z.of_N size)) fs)
          as [evs' r] eqn:E'.
        injection E as _ ->. eapply IH; [exact E'|].
        split; [apply byte_counts_add; [exact Hb | lia] | apply NoDup_keys_add, Hk].
      * destruct (caught e); [|discriminate].
        destruct (process_visited magika sizes fs) as [evs' r] eqn:E'.
        injection E as _ ->. eapply IH; eauto.
    + destruct (caught e); [|discriminate].
      destruct (process_visited magika sizes fs) as [evs' r] eqn:E'.
      injection E as _ ->. eapply IH; eauto.
Qed.

(** The dict a scan returns has unique keys and no negative value. *)
Lemma scan_directory_invariant (directory : path) (tree : node) (magika : classifier)
    (evs : list event) (sizes : dict) :
  scan_directory directory tree magika = (evs, Ok sizes) ->
  byte_counts sizes /\ NoDup (keys sizes).
Proof.
  unfold scan_directory. rewrite process_walk_visited. intros E.
  eapply process_visited_invariant; [exact E|].
  split; constructor.
Qed.


(** ** The calls of a scan *)

Lemma stat_calls_app (l1 l2 : list event) :
  stat_calls (l1 ++ l2) = stat_calls l1 ++ stat_calls l2.
Proof.
  induction l1 as [|[p|p|line] l1 IH]; simpl; rewrite ?IH; reflexivity.
Qed.

Lemma identify_calls_app (l1 l2 : list event) :
  identify_calls (l1 ++ l2) = identify_calls l1 ++ identify_calls l2.
Proof.
  induction l1 as [|[p|p|line] l1 IH]; simpl; rewrite ?IH; reflexivity.
Qed.

(** Whatever the end of a loop over visited files, [stat] and the
    classifier are only called on files [is_symlink()] answered [False]
    for. *)
Lemma process_visited_calls_real magika (fs : list (path * file_entry)) :
  forall sizes evs r p,
    process_visited magika sizes fs = (evs, r) ->
    In p (stat_calls evs) \/ In p (identify_calls evs) ->
    exists fe, In (p, fe) fs /\ is_symlink fe = Ok false.
Proof.
  induction fs as [|[q fe] fs IH]; intros sizes evs r p E H.
  - injection E as <- _. destruct H as [[]|[]].
  - assert (Later : forall sizes0 evs0 r0,
               process_visited magika sizes0 fs = (evs0, r0) ->
               In p (stat_calls evs0) \/ In p (identify_calls evs0) ->
               exists fe0, In (p, fe0) ((q, fe) :: fs) /\ is_symlink fe0 = Ok false).
    { intros sizes0 evs0 r0 E0 H0. destruct (IH _ _ _ _ E0 H0) as [fe0 [I S]].
      exists fe0. split; [right; exact I | exact S]. }
    assert (Here : forall l : list event,
               is_symlink fe = Ok false ->
               (forall x, In x (stat_calls l) \/ In x (identify_calls l) -> x = q) ->
               In p (stat_calls l) \/ In p (identify_calls l) ->
               exists fe0, In (p, fe0) ((q, fe) :: fs) /\ is_symlink fe0 = Ok false).
    { intros l S Hl Hp. exists fe. split; [|exact S]. left. rewrite (Hl p Hp). reflexivity. }
    cbn [process_visited] in E. unfold fate_of in E. cbn [fst snd] in E.
    destruct (is_symlink fe) as [[|]|e0] eqn:S.
    + eapply Later; eauto.
    + destruct (fe_stat fe) as [size|e].
      * destruct (magika q) as [label|e].
        -- destruct (process_visited magika (dict_add sizes label (Z.of_N size)) fs)
             as [evs' r'] eqn:E'.
           injection E as <- _. cbn [stat_calls identify_calls In] in H.
           destruct H as [[<-|H]|[<-|H]];
             try (exists fe; split; [left; reflexivity | exact S]);
             eapply Later; eauto.
        -- destruct (caught e).
           ++ destruct (process_visited magika sizes fs) as [evs' r'] eqn:E'.
              injection E as <- _. cbn [app stat_calls identify_calls In] in H.
              destruct H as [[<-|H]|[<-|H]];
                try (exists fe; split; [left; reflexivity | exact S]);
                eapply Later; eauto.
           ++ injection E as <- _. cbn [stat_calls identify_calls In] in H.
              destruct H as [[<-|[]]|[<-|[]]];
                exists fe; (split; [left; reflexivity | exact S]).
      * destruct (caught e).
        -- destruct (process_visited magika sizes fs) as [evs' r'] eqn:E'.
           injection E as <- _. cbn [app stat_calls identify_calls In] in H.
           destruct H as [[<-|H]|H];
             try (exists fe; split; [left; reflexivity | exact S]);
             eapply Later; eauto.
        -- injection E as <- _. cbn [stat_calls identify_calls In] in H.
           destruct H as [[<-|[]]|[]].
           exists fe. split; [left; reflexivity | exact S].
    + injection E as <- _. destruct H as [[]|[]].
Qed.

(** ** The claims about the scan *)



(** The directory of the end-to-end scenario: text 2000, image 2048. *)
Example scan_example :
  snd (scan_directory ["d"] (Dir true example_entries) example_magika)
  = Ok [("text", 2000); ("image", 2048)].
Proof. reflexivity. Qed.

(** A directory that can be listed and not searched: [is_symlink()] raises
    on its first name, before the [try], and the scan ends there. *)
Example scan_unsearchable :
  scan_directory ["d"] (Dir true [("a.txt", File (Ok 500%N)); ("sub", Dir true unsearchable)])
    example_magika
  = ([EvStat ["d"; "a.txt"]; EvIdentify ["d"; "a.txt"]], Raise permission_denied).
Proof. reflexivity. Qed.

(** C2, as the code has it.  Take a file [is_symlink()] answered [False] for
    and whose [stat] or classification raises [e].  If the [except] clause
    catches [e], which it does exactly when [e] is an [OSError], the
    accumulator is left as it was, also when the size had been read, exactly
    one line is written to standard error, the warning that names the path,
    and the loop goes on with the files after it.  If it does not, nothing is
    written, [e] leaves both loops and no file after it is processed. *)
Theorem failed_file_is_skipped (magika : classifier) (sizes : dict) (root : path)
    (f : string * file_entry) (rest : list (string * file_entry)) (e : exn) :
  fate_of magika (joinpath root (fst f), snd f) = Failed e ->
  (caught e = true ->
   exists evs,
     process_file magika sizes root f = (evs, Ok sizes)
     /\ stderr_of evs
        = [("Warning: Could not process " ++ path_str (joinpath root (fst f)) ++ ": "
              ++ exn_msg e)%string]
     /\ process_files magika sizes root (f :: rest)
        = (let '(evs', r) := process_files magika sizes root rest in (evs ++ evs', r)))
  /\ (caught e = false ->
      exists evs,
        process_file magika sizes root f = (evs, Raise e)
        /\ stderr_of evs = []
        /\ process_files magika sizes root (f :: rest) = (evs, Raise e)
        /\ forall dirs later,
             process_walk magika sizes ((root, dirs, f :: rest) :: later) = (evs, Raise e))
  /\ (caught e = true <-> is_OSError e = true).
Proof.
  intros Hf. split; [|split].
  - intros Hc. cbn [process_files].
    rewrite process_file_visited. cbn [process_visited fst snd].
    rewrite Hf, Hc.
    eexists. split; [reflexivity|]. split; [|reflexivity].
    destruct (fe_stat (snd f)); reflexivity.
  - intros Hc. cbn [process_walk process_files].
    rewrite process_file_visited. cbn [process_visited fst snd].
    rewrite Hf, Hc.
    eexists. split; [reflexivity|]. split; [|split; [reflexivity|intros; reflexivity]].
    destruct (fe_stat (snd f)); reflexivity.
  - unfold caught, is_OSError, is_PermissionError.
    destruct (exn_cls e); cbn; split; congruence.
Qed.

Lemma failed_file_is_skipped_witness :
  (caught no_such_file = true ->
   exists evs,
     process_file example_magika [("text", 1500)] ["d"; "sub"] ("gone", gone)
     = (evs, Ok [("text", 1500)])
     /\ stderr_of evs
        = [("Warning: Could not process " ++ path_str (joinpath ["d"; "sub"] "gone") ++ ": "
              ++ exn_msg no_such_file)%string]
     /\ process_files example_magika [("text", 1500)] ["d"; "sub"]
          [("gone", gone); ("c.png", FileEntry false None (Ok 2048%N))]
        = (let '(evs', r) :=
             process_files example_magika [("text", 1500)] ["d"; "sub"]
               [("c.png", FileEntry false None (Ok 2048%N))] in
           (evs ++ evs', r)))
  /\ (caught no_such_file = false ->
      exists evs,
        process_file example_magika [("text", 1500)] ["d"; "sub"] ("gone", gone)
        = (evs, Raise no_such_file)
        /\ stderr_of evs = []
        /\ process_files example_magika [("text", 1500)] ["d"; "sub"]
             [("gone", gone); ("c.png", FileEntry false None (Ok 2048%N))]
           = (evs, Raise no_such_file)
        /\ forall dirs later,
             process_walk example_magika [("text", 1500)]
               ((["d"; "sub"], dirs,
                 [("gone", gone); ("c.png", FileEntry false None (Ok 2048%N))]) :: later)
             = (evs, Raise no_such_file))
  /\ (caught no_such_file = true <-> is_OSError no_such_file = true).
Proof.
  apply (failed_file_is_skipped example_magika [("text", 1500)] ["d"; "sub"]
           ("gone", gone) [("c.png", FileEntry false None (Ok 2048%N))] no_such_file).
  reflexivity.
Defined.

(** C2, as the claim has it, fails: a classifier that raises an exception
    which is not an [OSError] ends the scan at that file.  Nothing is written
    to standard error and the file after it is never looked at. *)
Lemma uncaught_error_aborts_scan :
  scan_directory ["d"] (Dir true two_files) failing_magika
  = ([EvStat ["d"; "a.txt"]; EvIdentify ["d"; "a.txt"]], Raise value_error).
Proof. reflexivity. Qed.

(** C3.  For a name that is a symbolic link there is no [stat], no call of
    the classifier, no warning and no change of the accumulator: when
    [lstat()] succeeds on it the loop passes it over, and when [lstat()]
    itself fails (with anything but the errors of a path that is not there)
    [is_symlink()] raises that error and the scan ends with it.  [os.walk]
    yields nothing for a symbolic link to a directory.  The scan of a tree
    does and returns what the scan of the tree without its symbolic links
    does, whatever the links point to.  And in every scan, however it ends,
    [stat] and the classifier are only called on names [is_symlink()]
    answered [False] for. *)
Theorem symlinks_are_skipped :
  (forall magika sizes root name fe,
      fe_link fe = true -> not_there fe = false ->
      process_file magika sizes root (name, fe)
      = ([], match fe_lstat fe with None => Ok sizes | Some e => Raise e end))
  /\ (forall top target, walk top (LinkToDir target) = [])
  /\ (forall directory tree magika,
        scan_directory directory tree magika
        = scan_directory directory (prune tree) magika)
  /\ (forall directory tree magika p,
        In p (stat_calls (fst (scan_directory directory tree magika)))
        \/ In p (identify_calls (fst (scan_directory directory tree magika))) ->
        exists fe,
          In (p, fe) (visited (walk directory tree)) /\ is_symlink fe = Ok false).
Proof.
  split; [|split; [reflexivity|split]].
  - intros magika sizes root name fe Hl Hn.
    unfold process_file, is_symlink, not_there in *. cbn [snd].
    destruct (fe_lstat fe) as [e|]; [|rewrite Hl; reflexivity].
    destruct (is_OSError e); cbn [andb orb negb] in Hn.
    + rewrite orb_false_r in Hn. rewrite Hn. reflexivity.
    + rewrite Hn. reflexivity.
  - intros directory tree magika. unfold scan_directory.
    rewrite !process_walk_visited, visited_prune.
    apply process_visited_links.
  - intros directory tree magika p. unfold scan_directory.
    rewrite process_walk_visited.
    destruct (process_visited magika [] (visited (walk directory tree))) as [evs r] eqn:E.
    cbn [fst]. eapply process_visited_calls_real; exact E.
Qed.

(** A symbolic link in a directory that cannot be searched: the scan ends
    with the error of [lstat()]. *)
Example scan_unsearchable_link :
  scan_directory ["d"]
    (Dir true [("l", Leaf (FileEntry true (Some permission_denied) (Raise permission_denied)))])
    example_magika
  = ([], Raise permission_denied).
Proof. reflexivity. Qed.

(** C7.  Accumulating a sequence of (label, size) pairs and accumulating any
    permutation of it give dicts that are equal: the same keys with the same
    values, hence the same items.  So two walks that visit the same files in
    different orders return equal dicts. *)
Theorem accumulation_order_independent :
  (forall l1 l2 : list (string * Z),
      Permutation l1 l2 ->
      dict_eq (accumulate [] l1) (accumulate [] l2)
      /\ Permutation (accumulate [] l1) (accumulate [] l2))
  /\ (forall magika (w1 w2 : list triple),
        Permutation (visited w1) (visited w2) ->
        forallb (handled magika) (visited w1) = true ->
        exists evs1 evs2 d1 d2,
          process_walk magika [] w1 = (evs1, Ok d1)
          /\ process_walk magika [] w2 = (evs2, Ok d2)
          /\ dict_eq d1 d2).
Proof.
  split.
  - intros l1 l2 H. split; [apply accumulate_dict_eq, H|].
    apply dict_eq_Permutation.
    + apply NoDup_keys_accumulate. constructor.
    + apply NoDup_keys_accumulate. constructor.
    + apply accumulate_dict_eq, H.
  - intros magika w1 w2 HP H1.
    assert (H2 : forallb (handled magika) (visited w2) = true)
      by (rewrite <- (forallb_Permutation _ _ _ HP); exact H1).
    destruct (process_visited_handled magika _ [] H1) as [evs1 [E1 _]].
    destruct (process_visited_handled magika _ [] H2) as [evs2 [E2 _]].
    exists evs1, evs2. do 2 eexists.
    rewrite !process_walk_visited, E1, E2.
    split; [reflexivity|]. split; [reflexivity|].
    apply accumulate_dict_eq, counted_Permutation, HP.
Qed.

Lemma accumulation_order_independent_witness :
  dict_eq (accumulate [] [("text", 500); ("image", 2048); ("text", 1500)])
          (accumulate [] [("image", 2048); ("text", 1500); ("text", 500)])
  /\ Permutation (accumulate [] [("text", 500); ("image", 2048); ("text", 1500)])
                 (accumulate [] [("image", 2048); ("text", 1500); ("text", 500)]).
Proof.
  apply (proj1 accumulation_order_independent).
  apply perm_trans with [("image", 2048); ("text", 500); ("text", 1500)].
  - apply perm_swap.
  - apply perm_skip, perm_swap.
Defined.





(** ** binary64 arithmetic *)

Lemma digits2_pos_size (p : positive) : digits2_pos p = Pos.size p.
Proof. induction p as [p IH|p IH|]; simpl; rewrite ?IH; reflexivity. Qed.

Lemma digits2_log2 (p : positive) :
  Z.pos (digits2_pos p) = Z.log2 (Z.pos p) + 1.
Proof.
  rewrite digits2_pos_size.
  destruct p as [p|p|]; simpl; rewrite ?Pos.add_1_r; reflexivity.
Qed.

(** A positive number lies between the powers of two its digit count names. *)
Lemma digits2_bounds (p : positive) :
  2 ^ (Z.pos (digits2_pos p) - 1) <= Z.pos p < 2 ^ Z.pos (digits2_pos p).
Proof.
  rewrite digits2_log2.
  replace (Z.log2 (Z.pos p) + 1 - 1) with (Z.log2 (Z.pos p)) by lia.
  apply Z.log2_spec. lia.
Qed.

Lemma digits2_unique (p : positive) (d : Z) :
  2 ^ (d - 1) <= Z.pos p < 2 ^ d -> Z.pos (digits2_pos p) = d.
Proof.
  intros H. rewrite digits2_log2.
  assert (0 < d).
  { destruct (Z_lt_le_dec 0 d) as [|Hd]; [assumption|].
    assert (2 ^ d <= 2 ^ 0) by (apply Z.pow_le_mono_r; lia).
    simpl in *. lia. }
  rewrite (Z.log2_unique (Z.pos p) (d - 1)); [lia | lia |].
  replace (Z.succ (d - 1)) with d by lia. exact H.
Qed.

Lemma Zdigits2_nonneg (x : Z) : 0 <= Zdigits2 x.
Proof. destruct x; simpl; lia. Qed.

Lemma Zdigits2_lt_pow (x : Z) : 0 <= x -> x < 2 ^ Zdigits2 x.
Proof.
  destruct x as [|p|p]; simpl; intros H; try lia.
  apply digits2_bounds.
Qed.

Lemma Zdigits2_le (x d : Z) : 0 <= x -> 0 <= d -> x < 2 ^ d -> Zdigits2 x <= d.
Proof.
  destruct x as [|p|p]; simpl; intros H Hd Hx; try lia.
  rewrite digits2_log2. apply Z.log2_lt_pow2 in Hx; lia.
Qed.

(** Shifting right drops digits; adding one adds at most one. *)
Lemma Zdigits2_div_pow (x k : Z) :
  0 <= x -> 0 <= k -> Zdigits2 (x / 2 ^ k) <= Z.max (Zdigits2 x - k) 0.
Proof.
  intros Hx Hk. pose proof (Zdigits2_lt_pow x Hx) as Hd.
  pose proof (Zdigits2_nonneg x) as Hn.
  assert (0 < 2 ^ k) by (apply Z.pow_pos_nonneg; lia).
  destruct (Z_le_dec k (Zdigits2 x)) as [Hle|Hgt].
  - rewrite Z.max_l by lia. apply Zdigits2_le.
    + apply Z.div_pos; lia.
    + lia.
    + apply Z.div_lt_upper_bound; [lia|].
      rewrite <- Z.pow_add_r by lia.
      replace (k + (Zdigits2 x - k)) with (Zdigits2 x) by lia. exact Hd.
  - rewrite Z.max_r by lia.
    rewrite Z.div_small; [simpl; lia|].
    split; [lia|]. eapply Z.lt_le_trans; [exact Hd|].
    apply Z.pow_le_mono_r; lia.
Qed.

Lemma Zdigits2_succ (x : Z) : 0 <= x -> Zdigits2 (x + 1) <= Zdigits2 x + 1.
Proof.
  intros Hx. pose proof (Zdigits2_lt_pow x Hx). pose proof (Zdigits2_nonneg x).
  apply Zdigits2_le; [lia | lia |].
  rewrite Z.pow_add_r by lia. change (2 ^ 1) with 2. lia.
Qed.

Lemma Zdigits2_mono (x y : Z) : 0 <= x <= y -> Zdigits2 x <= Zdigits2 y.
Proof.
  intros H. apply Zdigits2_le; [lia | apply Zdigits2_nonneg |].
  eapply Z.le_lt_trans; [apply H | apply Zdigits2_lt_pow; lia].
Qed.

(** The mantissa a right shift leaves. *)
Lemma shr_1_m (mrs : shr_record) :
  0 <= shr_m mrs -> shr_m (shr_1 mrs) = shr_m mrs / 2.
Proof.
  destruct mrs as [m r s]; simpl; intros H.
  rewrite <- Z.div2_div.
  destruct m as [|[p|p|]|p]; try reflexivity; lia.
Qed.

Lemma iter_shr_1_m (p : positive) :
  forall mrs, 0 <= shr_m mrs ->
    shr_m (iter_pos shr_1 p mrs) = shr_m mrs / 2 ^ Z.pos p.
Proof.
  assert (Hpos : forall q, 0 < 2 ^ Z.pos q) by (intros q; apply Z.pow_pos_nonneg; lia).
  induction p as [p IH|p IH|]; intros mrs H; cbn [iter_pos].
  - assert (0 <= shr_m (shr_1 mrs)) by (rewrite shr_1_m by lia; apply Z.div_pos; lia).
    assert (0 <= shr_m (iter_pos shr_1 p (shr_1 mrs)))
      by (rewrite IH by lia; apply Z.div_pos; [lia | apply Hpos]).
    rewrite !IH, shr_1_m by lia.
    pose proof (Hpos p).
    assert (E : 2 ^ Z.pos p~1 = 2 * 2 ^ Z.pos p * 2 ^ Z.pos p).
    { rewrite Pos2Z.inj_xI.
      replace (2 * Z.pos p + 1) with (1 + Z.pos p + Z.pos p) by lia.
      rewrite !Z.pow_add_r by lia. reflexivity. }
    rewrite E, !Z.div_div by lia. f_equal. lia.
  - assert (0 <= shr_m (iter_pos shr_1 p mrs))
      by (rewrite IH by lia; apply Z.div_pos; [lia | apply Hpos]).
    rewrite !IH by lia.
    pose proof (Hpos p).
    rewrite Z.div_div by lia. f_equal.
    rewrite Pos2Z.inj_xO, <- Z.pow_add_r by lia. f_equal. lia.
  - rewrite shr_1_m by lia. reflexivity.
Qed.

Lemma shr_record_of_loc_m (m : Z) (l : location) :
  shr_m (shr_record_of_loc m l) = m.
Proof. destruct l as [|[| |]]; reflexivity. Qed.

(** What [shr] does to the exponent and to a mantissa that is not negative. *)
Lemma shr_spec (mrs : shr_record) (e n : Z) :
  0 <= shr_m mrs ->
  snd (shr mrs e n) = e + Z.max 0 n
  /\ shr_m (fst (shr mrs e n)) = shr_m mrs / 2 ^ Z.max 0 n.
Proof.
  intros H. destruct n as [|p|p]; cbn [shr fst snd].
  - rewrite Z.max_l by lia. split; [lia|]. rewrite Z.div_1_r. reflexivity.
  - rewrite Z.max_r by lia. split; [lia|]. apply iter_shr_1_m, H.
  - rewrite Z.max_l by lia. split; [lia|]. rewrite Z.div_1_r. reflexivity.
Qed.

Lemma round_nearest_even_bounds (m : Z) (l : location) :
  m <= round_nearest_even m l <= m + 1.
Proof.
  destruct l as [|[| |]]; simpl; try lia.
  destruct (Z.even m); lia.
Qed.

(** Rounding a value below [2^1023] never overflows. *)
Lemma binary_round_aux_number (s : bool) (mx ex : Z) (lx : location) :
  0 <= mx -> ex <= 971 -> Zdigits2 mx + ex <= 1023 ->
  is_number (binary_round_aux prec emax s mx ex lx) = true.
Proof.
  intros Hm He Hd. unfold binary_round_aux, shr_fexp.
  set (n1 := fexp prec emax (Zdigits2 mx + ex) - ex).
  assert (H1 := shr_spec (shr_record_of_loc mx lx) ex n1).
  rewrite shr_record_of_loc_m in H1. specialize (H1 Hm).
  destruct (shr (shr_record_of_loc mx lx) ex n1) as [mrs' e'].
  cbn [fst snd] in H1. destruct H1 as [He' Hm'].
  set (mr := round_nearest_even (shr_m mrs') (loc_of_shr_record mrs')).
  assert (Hmr := round_nearest_even_bounds (shr_m mrs') (loc_of_shr_record mrs')).
  fold mr in Hmr.
  assert (Hk : 0 < 2 ^ Z.max 0 n1) by (apply Z.pow_pos_nonneg; lia).
  assert (Hm'0 : 0 <= shr_m mrs') by (rewrite Hm'; apply Z.div_pos; lia).
  set (n2 := fexp prec emax (Zdigits2 mr + e') - e').
  assert (H2 := shr_spec (shr_record_of_loc mr loc_Exact) e' n2).
  rewrite shr_record_of_loc_m in H2. specialize (H2 ltac:(lia)).
  destruct (shr (shr_record_of_loc mr loc_Exact) e' n2) as [mrs'' e''].
  cbn [fst snd] in H2. destruct H2 as [He'' Hm''].
  assert (Hk2 : 0 < 2 ^ Z.max 0 n2) by (apply Z.pow_pos_nonneg; lia).
  assert (Hm''0 : 0 <= shr_m mrs'') by (rewrite Hm''; apply Z.div_pos; lia).
  destruct (shr_m mrs'') as [|m|m]; [reflexivity | | lia].
  assert (Hd' : Zdigits2 (shr_m mrs') <= Z.max (Zdigits2 mx - Z.max 0 n1) 0)
    by (rewrite Hm'; apply Zdigits2_div_pow; lia).
  assert (Hdr : Zdigits2 mr <= Zdigits2 (shr_m mrs') + 1).
  { eapply Z.le_trans; [apply Zdigits2_mono; split; [|apply Hmr]; lia|].
    apply Zdigits2_succ, Hm'0. }
  assert (e'' <= 971).
  { unfold n1, n2, fexp, SpecFloat.emin, prec, emax in *. lia. }
  replace (e'' <=? emax - prec) with true by (symmetry; apply Z.leb_le; unfold emax, prec; lia).
  reflexivity.
Qed.

(** The quotient of two [int]s with [0 <= a <= b] and [0 < b] is a double:
    the division raises neither [ZeroDivisionError] nor [OverflowError]. *)
Lemma int_truediv_ok (a b : Z) :
  0 <= a <= b -> 0 < b -> exists x, int_truediv a b = Ok x /\ is_number x = true.
Proof.
  intros Ha Hb. unfold int_truediv.
  replace (b =? 0)%Z with false by (symmetry; apply Z.eqb_neq; lia).
  destruct b as [|q|q]; try lia.
  destruct a as [|p|p]; try lia.
  - eexists; split; reflexivity.
  - cbn [exact_of_int SFdiv xorb].
    assert (H : is_number
              (let '(mz, ez, lz) := SFdiv_core_binary prec emax (Z.pos p) 0 (Z.pos q) 0 in
               binary_round_aux prec emax false mz ez lz) = true).
    { unfold SFdiv_core_binary.
      set (e' := Z.min (fexp prec emax (Zdigits2 (Z.pos p) + 0 - (Zdigits2 (Z.pos q) + 0)))
                   (0 - 0)).
      assert (He' : e' <= 0) by (unfold e'; lia).
      set (m' := match 0 - 0 - e' with
                 | 0 => Z.pos p
                 | Z.pos _ => Z.shiftl (Z.pos p) (0 - 0 - e')
                 | Z.neg _ => 0
                 end).
      assert (Hm' : m' = Z.pos p * 2 ^ (- e')).
      { unfold m'. destruct (0 - 0 - e') as [|k|k] eqn:E; try lia.
        - replace (- e') with 0 by lia. simpl. lia.
        - rewrite Z.shiftl_mul_pow2 by lia. f_equal. f_equal. lia. }
      assert (Hp : 0 < 2 ^ (- e')) by (apply Z.pow_pos_nonneg; lia).
      pose proof (Z_div_mod m' (Z.pos q) ltac:(lia)) as Hdiv.
      destruct (Z.div_eucl m' (Z.pos q)) as [qq r].
      destruct Hdiv as [Hdiv Hr].
      assert (Hq0 : 0 <= qq) by nia.
      assert (Hq1 : qq <= 2 ^ (- e')) by nia.
      apply binary_round_aux_number; [exact Hq0 | lia |].
      assert (Zdigits2 qq <= - e' + 1); [|lia].
      apply Zdigits2_le; [lia | lia |].
      rewrite Z.pow_add_r by lia. change (2 ^ 1) with 2. lia. }
    destruct (let '(mz, ez, lz) := SFdiv_core_binary prec emax (Z.pos p) 0 (Z.pos q) 0 in
              binary_round_aux prec emax false mz ez lz) as [s|s| |s m e];
      try discriminate; eexists; split; reflexivity.
Qed.

(** A mantissa of 53 digits with an exponent in range is left as it is. *)
Lemma binary_round_aux_exact (s : bool) (m : positive) (e : Z) :
  Z.pos (digits2_pos m) = 53 -> -1074 <= e <= 971 ->
  binary_round_aux prec emax s (Z.pos m) e loc_Exact = S754_finite s m e.
Proof.
  intros Hd He. unfold binary_round_aux, shr_fexp.
  cbn [Zdigits2]. rewrite Hd.
  replace (fexp prec emax (53 + e) - e) with 0
    by (unfold fexp, SpecFloat.emin, prec, emax; lia).
  cbn [shr shr_record_of_loc shr_m loc_of_shr_record round_nearest_even Zdigits2].
  rewrite Hd.
  replace (fexp prec emax (53 + e) - e) with 0
    by (unfold fexp, SpecFloat.emin, prec, emax; lia).
  cbn [shr shr_record_of_loc shr_m].
  replace (e <=? emax - prec) with true
    by (symmetry; apply Z.leb_le; unfold emax, prec; lia).
  reflexivity.
Qed.

(** A mantissa of 54 digits that ends in a zero loses the zero. *)
Lemma binary_round_aux_even (s : bool) (m : positive) (e : Z) :
  Z.pos (digits2_pos m) = 53 -> -1075 <= e <= 970 ->
  binary_round_aux prec emax s (Z.pos m~0) e loc_Exact = S754_finite s m (e + 1).
Proof.
  intros Hd He. unfold binary_round_aux, shr_fexp.
  cbn [Zdigits2 digits2_pos]. rewrite Pos2Z.inj_succ, Hd.
  replace (fexp prec emax (Z.succ 53 + e) - e) with 1
    by (unfold fexp, SpecFloat.emin, prec, emax; lia).
  cbn [shr shr_record_of_loc iter_pos shr_1 orb shr_m loc_of_shr_record
         round_nearest_even Zdigits2].
  rewrite Hd.
  replace (fexp prec emax (53 + (e + 1)) - (e + 1)) with 0
    by (unfold fexp, SpecFloat.emin, prec, emax; lia).
  cbn [shr shr_record_of_loc shr_m].
  replace (e + 1 <=? emax - prec) with true
    by (symmetry; apply Z.leb_le; unfold emax, prec; lia).
  reflexivity.
Qed.

(** An [int] of at most 53 digits is a double exactly: its digits, shifted
    to the left until there are 53 of them. *)
Lemma binary_round_small (s : bool) (p : positive) :
  Z.pos p < 2 ^ 53 ->
  exists m k,
    0 <= k <= 52 /\ Z.pos m = Z.pos p * 2 ^ k /\ Z.pos (digits2_pos m) = 53
    /\ binary_round prec emax s p 0 = S754_finite s m (- k).
Proof.
  intros Hp. pose proof (digits2_bounds p) as Hb.
  assert (Hd : 1 <= Z.pos (digits2_pos p) <= 53).
  { split; [lia|]. change (Z.pos (digits2_pos p)) with (Zdigits2 (Z.pos p)).
    apply Zdigits2_le; lia. }
  unfold binary_round, shl_align.
  replace (fexp prec emax (Z.pos (digits2_pos p) + 0) - 0)
    with (Z.pos (digits2_pos p) - 53)
    by (unfold fexp, SpecFloat.emin, prec, emax; lia).
  replace (fexp prec emax (Z.pos (digits2_pos p) + 0))
    with (Z.pos (digits2_pos p) - 53)
    by (unfold fexp, SpecFloat.emin, prec, emax; lia).
  destruct (Z.pos (digits2_pos p) - 53) as [|d|d] eqn:E; try lia.
  - exists p, 0. rewrite Z.mul_1_r.
    assert (Z.pos (digits2_pos p) = 53) by lia.
    repeat split; try lia. apply binary_round_aux_exact; lia.
  - exists (Pos.iter xO p d), (Z.pos d).
    assert (Hm : Z.pos (Pos.iter xO p d) = Z.pos p * 2 ^ Z.pos d).
    { change (Pos.iter xO p d) with (shift_pos d p).
      rewrite shift_pos_correct, Z.pow_pos_fold. lia. }
    assert (Hk : Z.pos d = 53 - Z.pos (digits2_pos p)) by lia.
    assert (Hdm : Z.pos (digits2_pos (Pos.iter xO p d)) = 53).
    { apply digits2_unique. rewrite Hm, Hk.
      assert (P1 : 2 ^ (53 - 1)
                   = 2 ^ (Z.pos (digits2_pos p) - 1) * 2 ^ (53 - Z.pos (digits2_pos p)))
        by (rewrite <- Z.pow_add_r by lia; f_equal; lia).
      assert (P2 : 2 ^ 53
                   = 2 ^ Z.pos (digits2_pos p) * 2 ^ (53 - Z.pos (digits2_pos p)))
        by (rewrite <- Z.pow_add_r by lia; f_equal; lia).
      assert (0 < 2 ^ (53 - Z.pos (digits2_pos p))) by (apply Z.pow_pos_nonneg; lia).
      rewrite P1, P2. nia. }
    repeat split; try lia; try assumption.
    change (- Z.pos d) with (Z.neg d).
    apply binary_round_aux_exact; [exact Hdm | lia].
Qed.

Lemma float_of_int_small (n : Z) :
  n <> 0 -> - 2 ^ 53 < n < 2 ^ 53 ->
  exists m k,
    0 <= k <= 52 /\ Z.pos m = Z.abs n * 2 ^ k /\ Z.pos (digits2_pos m) = 53
    /\ float_of_int n = Ok (S754_finite (n <? 0) m (- k)).
Proof.
  intros H0 Hn. unfold float_of_int.
  destruct n as [|p|p]; [lia | |]; cbn [binary_normalize Z.abs].
  - destruct (binary_round_small false p ltac:(lia)) as [m [k [Hk [Hm [Hd E]]]]].
    exists m, k. rewrite E. auto.
  - destruct (binary_round_small true p ltac:(lia)) as [m [k [Hk [Hm [Hd E]]]]].
    exists m, k. rewrite E. auto.
Qed.



(** ** Doubles with two decimals *)

(** The hundredths of the double [p * 2^(-j)], held as [m * 2^(-(k+j))]. *)
Lemma hundredths_scaled (m p : positive) (k j : Z) :
  0 <= k -> 0 <= j -> Z.pos m = Z.pos p * 2 ^ k ->
  hundredths m (- (k + j)) = Z.to_N (round_half_even (Z.pos p * 100) (2 ^ j)).
Proof.
  intros Hk Hj Hm. unfold hundredths, round_half_even.
  assert (Hpk : 0 < 2 ^ k) by (apply Z.pow_pos_nonneg; lia).
  assert (Hpj : 0 < 2 ^ j) by (apply Z.pow_pos_nonneg; lia).
  destruct (k + j) as [|t|t] eqn:E; try lia; cbn [Z.opp].
  - assert (k = 0) by lia. assert (j = 0) by lia. subst k j.
    change (2 ^ 0) with 1 in *. rewrite Z.div_1_r, Z.mod_1_r.
    cbn [Z.mul Z.compare]. f_equal. lia.
  - rewrite Z.pow_pos_fold, <- E, Z.add_comm, Z.pow_add_r by lia.
    rewrite Hm.
    replace (Z.pos p * 2 ^ k * 100) with (Z.pos p * 100 * 2 ^ k) by lia.
    rewrite Z.div_mul_cancel_r, Z.mul_mod_distr_r by lia.
    rewrite Z.mul_assoc, <- Zmult_compare_compat_r by lia.
    reflexivity.
Qed.



(** ** Dividing by [1024.0] and comparing with it *)

Lemma SFdiv_1024 (s : bool) (m : positive) (e : Z) :
  Z.pos (digits2_pos m) = 53 -> -1063 <= e <= 981 ->
  SFdiv prec emax (S754_finite s m e) f1024 = S754_finite s m (e - 10).
Proof.
  intros Hd He. unfold f1024. cbn [SFdiv]. rewrite xorb_false_r.
  unfold SFdiv_core_binary. cbn [Zdigits2]. rewrite Hd.
  change (Z.pos (digits2_pos 4503599627370496)) with 53.
  replace (Z.min (fexp prec emax (53 + e - (53 + -42))) (e - -42)) with (e - 11)
    by (unfold fexp, SpecFloat.emin, prec, emax; lia).
  replace (e - -42 - (e - 11)) with 53 by lia.
  rewrite Z.shiftl_mul_pow2 by lia.
  assert (Hq : Z.pos m * 2 ^ 53 / 4503599627370496 = Z.pos m~0).
  { replace (Z.pos m * 2 ^ 53) with (Z.pos m~0 * 4503599627370496) by lia.
    apply Z.div_mul. discriminate. }
  assert (Hr : (Z.pos m * 2 ^ 53) mod 4503599627370496 = 0).
  { replace (Z.pos m * 2 ^ 53) with (Z.pos m~0 * 4503599627370496) by lia.
    apply Z.mod_mul. discriminate. }
  unfold Z.div in Hq. unfold Z.modulo in Hr.
  destruct (Z.div_eucl (Z.pos m * 2 ^ 53) 4503599627370496) as [q r].
  cbn [fst snd] in Hq, Hr. subst q r.
  change (new_location 4503599627370496 0) with loc_Exact.
  rewrite binary_round_aux_even by lia. f_equal. lia.
Qed.

Lemma SFltb_1024 (m : positive) (e : Z) :
  Z.pos (digits2_pos m) = 53 ->
  SFltb (S754_finite false m e) f1024 = (e <? -42).
Proof.
  intros Hd. unfold SFltb, f1024.
  pose proof (digits2_bounds m) as Hb. rewrite Hd in Hb.
  assert (P : 2 ^ (53 - 1) = 4503599627370496) by reflexivity.
  rewrite P in Hb. clear P.
  remember 4503599627370496%positive as c eqn:Hc.
  cbn [SFcompare].
  destruct (Z.compare_spec e (-42)) as [->|H|H].
  - replace (-42 <? -42) with false by reflexivity.
    destruct (Pos.compare_cont Eq m c) eqn:E; try reflexivity.
    apply (proj1 (Pos.compare_lt_iff m c)) in E. lia.
  - symmetry. apply Z.ltb_lt. exact H.
  - symmetry. apply Z.ltb_ge. lia.
Qed.

(** The comparison with [1024.0] after the size [p] has been divided
    [t / 10] times, told on the size itself. *)
Lemma lt_1024_scaled (m p : positive) (k t : Z) :
  Z.pos m = Z.pos p * 2 ^ k -> Z.pos (digits2_pos m) = 53 ->
  0 <= k <= 52 -> 0 <= t ->
  (- (k + t) <? -42) = (Z.pos p <? 2 ^ (10 + t)).
Proof.
  intros Hm Hd Hk Ht.
  pose proof (digits2_bounds m) as Hb. rewrite Hd, Hm in Hb.
  assert (Hpk : 0 < 2 ^ k) by (apply Z.pow_pos_nonneg; lia).
  destruct (Z_le_dec 43 (k + t)) as [H|H].
  - replace (- (k + t) <? -42) with true by (symmetry; apply Z.ltb_lt; lia).
    symmetry. apply Z.ltb_lt.
    assert (P : 2 ^ 53 = 2 ^ (53 - k) * 2 ^ k)
      by (rewrite <- Z.pow_add_r by lia; f_equal; lia).
    rewrite P in Hb.
    assert (Z.pos p < 2 ^ (53 - k)) by nia.
    assert (2 ^ (53 - k) <= 2 ^ (10 + t)) by (apply Z.pow_le_mono_r; lia).
    lia.
  - replace (- (k + t) <? -42) with false by (symmetry; apply Z.ltb_ge; lia).
    symmetry. apply Z.ltb_ge.
    assert (P : 2 ^ (53 - 1) = 2 ^ (52 - k) * 2 ^ k)
      by (rewrite <- Z.pow_add_r by lia; f_equal; lia).
    rewrite P in Hb.
    assert (2 ^ (52 - k) <= Z.pos p) by nia.
    assert (2 ^ (10 + t) <= 2 ^ (52 - k)) by (apply Z.pow_le_mono_r; lia).
    lia.
Qed.

(** One turn of the loop of [format_size] on a positive double. *)
Lemma format_size_loop_step (u : string) (rest : list string) (m : positive) (e : Z) :
  Z.pos (digits2_pos m) = 53 -> -1063 <= e <= 981 ->
  format_size_loop (u :: rest) (PyFloat (S754_finite false m e)) =
  if e <? -42
  then Ok (two_decimals (hundredths m e) ++ " " ++ u)%string
  else format_size_loop rest (PyFloat (S754_finite false m (e - 10))).
Proof.
  intros Hd He. cbn [format_size_loop lt_1024 div_1024 format_num bind].
  rewrite SFltb_1024, SFdiv_1024 by assumption.
  destruct (e <? -42); reflexivity.
Qed.

(** The first turn of the loop, on the [int] the function is called with. *)
Lemma format_size_loop_int (u : string) (rest : list string) (n : Z) :
  format_size_loop (u :: rest) (PyInt n) =
  if n <? 1024
  then s <- format_num (PyInt n) ;; Ok (s ++ " " ++ u)%string
  else x <- float_of_int n ;;
       format_size_loop rest (PyFloat (SFdiv prec emax x f1024)).
Proof.
  cbn [format_size_loop lt_1024 div_1024].
  destruct (n <? 1024); [reflexivity|].
  destruct (float_of_int n); reflexivity.
Qed.

Lemma divided_normal (m : positive) (e : Z) (j : nat) :
  Z.pos (digits2_pos m) = 53 -> -1063 + 10 * Z.of_nat j <= e <= 981 ->
  divided (S754_finite false m e) j = S754_finite false m (e - 10 * Z.of_nat j).
Proof.
  intros Hd. induction j as [|j IH]; intros He.
  - cbn [divided]. f_equal. lia.
  - cbn [divided]. rewrite IH by lia.
    rewrite SFdiv_1024 by lia. f_equal. lia.
Qed.

(** [format_size] on a size whose double is positive with a mantissa of 53
    digits, when the comparisons of the loop agree with the thresholds. *)
Lemma format_size_normal (n : Z) (m : positive) (e : Z) :
  float_of_int n = Ok (S754_finite false m e) ->
  Z.pos (digits2_pos m) = 53 -> -52 <= e <= 971 ->
  (e <? -42) = (n <? 1024) ->
  (forall t, 10 <= t <= 40 -> (e - t <? -42) = (n <? 2 ^ (10 + t))) ->
  format_size n
  = Ok (two_decimals (hundredths m (e - 10 * Z.of_nat (unit_index n)))
          ++ " " ++ unit_name (unit_index n))%string.
Proof.
  intros E Hd He C0 C.
  unfold format_size, units, unit_index.
  rewrite format_size_loop_int. cbn [format_num].
  rewrite E. cbn [bind format_2f sign_str].
  destruct (n <? 1024) eqn:T0.
  { replace (e - 10 * Z.of_nat 0) with e by lia. reflexivity. }
  rewrite SFdiv_1024 by lia.
  rewrite format_size_loop_step, (C 10) by lia.
  change (2 ^ (10 + 10)) with (1024 ^ 2).
  destruct (n <? 1024 ^ 2) eqn:T1.
  { replace (e - 10 * Z.of_nat 1) with (e - 10) by lia. reflexivity. }
  replace (e - 10 - 10) with (e - 20) by lia.
  rewrite format_size_loop_step, (C 20) by lia.
  change (2 ^ (10 + 20)) with (1024 ^ 3).
  destruct (n <? 1024 ^ 3) eqn:T2.
  { replace (e - 10 * Z.of_nat 2) with (e - 20) by lia. reflexivity. }
  replace (e - 20 - 10) with (e - 30) by lia.
  rewrite format_size_loop_step, (C 30) by lia.
  change (2 ^ (10 + 30)) with (1024 ^ 4).
  destruct (n <? 1024 ^ 4) eqn:T3.
  { replace (e - 10 * Z.of_nat 3) with (e - 30) by lia. reflexivity. }
  replace (e - 30 - 10) with (e - 40) by lia.
  rewrite format_size_loop_step, (C 40) by lia.
  change (2 ^ (10 + 40)) with (1024 ^ 5).
  destruct (n <? 1024 ^ 5) eqn:T4.
  { replace (e - 10 * Z.of_nat 4) with (e - 40) by lia. reflexivity. }
  replace (e - 40 - 10) with (e - 50) by lia.
  cbn [format_size_loop format_num bind format_2f sign_str].
  replace (e - 10 * Z.of_nat 5) with (e - 50) by lia. reflexivity.
Qed.

(** For a size below [2^53] the doubles are exact: the unit is the one the
    thresholds [1024^k] name and the figure is the exact quotient rounded to
    hundredths. *)
Lemma format_size_exact (n : Z) :
  0 <= n < 2 ^ 53 ->
  format_size n
  = Ok (scaled_2f n (unit_index n) ++ " " ++ unit_name (unit_index n))%string.
Proof.
  intros Hn. destruct (Z.eq_dec n 0) as [->|H0]; [reflexivity|].
  destruct (float_of_int_small n H0 ltac:(lia)) as [m [k [Hk [Hm [Hd E]]]]].
  replace (n <? 0) with false in E by (symmetry; apply Z.ltb_ge; lia).
  destruct n as [|p|p]; try lia. cbn [Z.abs] in Hm.
  assert (C0 : (- k <? -42) = (Z.pos p <? 1024)).
  { replace (- k) with (- (k + 0)) by (f_equal; lia).
    apply (lt_1024_scaled m p k 0); lia. }
  assert (C : forall t, 10 <= t <= 40 -> (- k - t <? -42) = (Z.pos p <? 2 ^ (10 + t))).
  { intros t Ht. replace (- k - t) with (- (k + t)) by lia.
    apply (lt_1024_scaled m p k t); lia. }
  rewrite (format_size_normal (Z.pos p) m (- k) E Hd ltac:(lia) C0 C).
  unfold scaled_2f. do 3 f_equal.
  assert (J : 0 <= 10 * Z.of_nat (unit_index (Z.pos p))) by lia.
  replace (- k - 10 * Z.of_nat (unit_index (Z.pos p)))
    with (- (k + 10 * Z.of_nat (unit_index (Z.pos p)))) by lia.
  rewrite (hundredths_scaled m p k _ ltac:(lia) J Hm).
  rewrite Z.pow_mul_r by lia. reflexivity.
Qed.

(** An [int] from [2^53] up to [2^1023] is rounded to a double of 53 digits. *)
Lemma binary_round_large (s : bool) (p : positive) :
  2 ^ 53 <= Z.pos p < 2 ^ 1023 ->
  exists m e,
    binary_round prec emax s p 0 = S754_finite s m e
    /\ Z.pos (digits2_pos m) = 53 /\ 1 <= e <= 971.
Proof.
  intros Hp. pose proof (digits2_bounds p) as Hb.
  set (dp := Z.pos (digits2_pos p)) in *.
  assert (Hdp : 54 <= dp <= 1023).
  { split.
    - destruct (Z_lt_le_dec dp 54) as [H|H]; [|exact H].
      assert (2 ^ dp <= 2 ^ 53) by (apply Z.pow_le_mono_r; lia). lia.
    - apply (Zdigits2_le (Z.pos p)); lia. }
  unfold binary_round, shl_align. fold dp.
  replace (fexp prec emax (dp + 0) - 0) with (dp - 53)
    by (unfold fexp, SpecFloat.emin, prec, emax; lia).
  destruct (dp - 53) as [|d|d] eqn:Ed; try lia.
  unfold binary_round_aux, shr_fexp. cbn [Zdigits2]. fold dp.
  replace (fexp prec emax (dp + 0) - 0) with (Z.pos d)
    by (unfold fexp, SpecFloat.emin, prec, emax; lia).
  assert (H1 := shr_spec (shr_record_of_loc (Z.pos p) loc_Exact) 0 (Z.pos d)).
  rewrite shr_record_of_loc_m in H1. specialize (H1 ltac:(lia)).
  destruct (shr (shr_record_of_loc (Z.pos p) loc_Exact) 0 (Z.pos d)) as [mrs' e'].
  cbn [fst snd] in H1. destruct H1 as [He' Hm']. rewrite Z.max_r in * by lia.
  assert (Hpd : 0 < 2 ^ Z.pos d) by (apply Z.pow_pos_nonneg; lia).
  assert (P1 : 2 ^ (dp - 1) = 2 ^ 52 * 2 ^ Z.pos d)
    by (rewrite <- Z.pow_add_r by lia; f_equal; lia).
  assert (P2 : 2 ^ dp = 2 ^ 53 * 2 ^ Z.pos d)
    by (rewrite <- Z.pow_add_r by lia; f_equal; lia).
  assert (Hm1 : 2 ^ 52 <= shr_m mrs' < 2 ^ 53).
  { rewrite Hm'. split.
    - apply Z.div_le_lower_bound; lia.
    - apply Z.div_lt_upper_bound; lia. }
  set (mr := round_nearest_even (shr_m mrs') (loc_of_shr_record mrs')).
  assert (Hmr := round_nearest_even_bounds (shr_m mrs') (loc_of_shr_record mrs')).
  fold mr in Hmr.
  destruct (Z.eq_dec mr (2 ^ 53)) as [Hcarry|Hno].
  - rewrite Hcarry. change (Zdigits2 (2 ^ 53)) with 54.
    replace (fexp prec emax (54 + e') - e') with 1
      by (unfold fexp, SpecFloat.emin, prec, emax; lia).
    exists (4503599627370496%positive), (e' + 1).
    split; [|split; [reflexivity | lia]].
    change (2 ^ 53) with 9007199254740992.
    cbn [shr shr_record_of_loc iter_pos shr_1 orb shr_m].
    replace (e' + 1 <=? emax - prec) with true
      by (symmetry; apply Z.leb_le; unfold emax, prec; lia).
    reflexivity.
  - destruct mr as [|q|q] eqn:Eq; try lia.
    assert (Hq : Z.pos (digits2_pos q) = 53)
      by (apply digits2_unique; change (53 - 1) with 52; lia).
    cbn [Zdigits2]. rewrite Hq.
    replace (fexp prec emax (53 + e') - e') with 0
      by (unfold fexp, SpecFloat.emin, prec, emax; lia).
    cbn [shr shr_record_of_loc shr_m].
    exists q, e'. split; [|split; [exact Hq | lia]].
    replace (e' <=? emax - prec) with true
      by (symmetry; apply Z.leb_le; unfold emax, prec; lia).
    reflexivity.
Qed.
Lemma float_of_int_large (n : Z) :
  2 ^ 53 <= n < 2 ^ 1023 ->
  exists m e,
    float_of_int n = Ok (S754_finite false m e)
    /\ Z.pos (digits2_pos m) = 53 /\ 1 <= e <= 971.
Proof.
  intros Hn. destruct n as [|p|p]; try lia.
  destruct (binary_round_large false p Hn) as [m [e [E [Hd He]]]].
  exists m, e. unfold float_of_int. cbn [binary_normalize]. rewrite E. auto.
Qed.

(** Every size below [2^1023] is printed: the loop divides as often as the
    thresholds [1024^k] say, five times at most, and prints the double it is
    left with. *)
Lemma format_size_units (n : Z) :
  0 <= n < 2 ^ 1023 ->
  exists x,
    float_of_int n = Ok x
    /\ format_size n
       = Ok (format_2f (divided x (unit_index n)) ++ " " ++ unit_name (unit_index n))%string.
Proof.
  intros Hn. destruct (Z.eq_dec n 0) as [->|H0].
  { eexists; split; reflexivity. }
  assert (I : (0 <= Z.of_nat (unit_index n) <= 5)).
  { unfold unit_index. repeat match goal with |- context [if ?b then _ else _] => destruct b end; lia. }
  destruct (Z_lt_le_dec n (2 ^ 53)) as [Hs|Hl].
  - destruct (float_of_int_small n H0 ltac:(lia)) as [m [k [Hk [Hm [Hd E]]]]].
    replace (n <? 0) with false in E by (symmetry; apply Z.ltb_ge; lia).
    destruct n as [|p|p]; try lia. cbn [Z.abs] in Hm.
    assert (C0 : (- k <? -42) = (Z.pos p <? 1024)).
    { replace (- k) with (- (k + 0)) by (f_equal; lia).
      apply (lt_1024_scaled m p k 0); lia. }
    assert (C : forall t, 10 <= t <= 40 -> (- k - t <? -42) = (Z.pos p <? 2 ^ (10 + t))).
    { intros t Ht. replace (- k - t) with (- (k + t)) by lia.
      apply (lt_1024_scaled m p k t); lia. }
    eexists. split; [exact E|].
    rewrite (format_size_normal (Z.pos p) m (- k) E Hd ltac:(lia) C0 C).
    rewrite divided_normal by lia. reflexivity.
  - destruct (float_of_int_large n ltac:(lia)) as [m [e [E [Hd He]]]].
    assert (C0 : (e <? -42) = (n <? 1024)).
    { replace (e <? -42) with false by (symmetry; apply Z.ltb_ge; lia).
      symmetry; apply Z.ltb_ge.
      assert (2 ^ 10 <= 2 ^ 53) by (apply Z.pow_le_mono_r; lia).
      change (2 ^ 10) with 1024 in *. lia. }
    assert (C : forall t, 10 <= t <= 40 -> (e - t <? -42) = (n <? 2 ^ (10 + t))).
    { intros t Ht.
      replace (e - t <? -42) with false by (symmetry; apply Z.ltb_ge; lia).
      symmetry; apply Z.ltb_ge.
      assert (2 ^ (10 + t) <= 2 ^ 53) by (apply Z.pow_le_mono_r; lia). lia. }
    eexists. split; [exact E|].
    rewrite (format_size_normal n m e E Hd ltac:(lia) C0 C).
    rewrite divided_normal by lia. reflexivity.
Qed.

Lemma format_size_ok (n : Z) :
  0 <= n < 2 ^ 1023 -> exists s, format_size n = Ok s.
Proof.
  intros Hn. destruct (format_size_units n Hn) as [x [_ E]]. eexists; exact E.
Qed.

Lemma digit_one_char (n : N) : String.length (digit n) = 1%nat.
Proof.
  unfold digit. assert (H : (n mod 10 < 10)%N) by (apply N.mod_lt; discriminate).
  generalize dependent (n mod 10)%N. intros r H.
  assert (C : (r = 0 \/ r = 1 \/ r = 2 \/ r = 3 \/ r = 4 \/ r = 5 \/ r = 6
               \/ r = 7 \/ r = 8 \/ r = 9)%N) by lia.
  repeat (destruct C as [C|C]; [rewrite C; reflexivity|]).
  rewrite C; reflexivity.
Qed.

(** C4.  [format_size] divides by 1024 while the value is at least 1024,
    five times at most, and names the unit after the number of divisions: B,
    KB, MB, GB, TB, then PB.  It prints the value it is left with, with two
    decimals, a space and the unit.  Up to [2^1023] the divisions are counted
    by the thresholds [1024^k]; below [2^53] the value printed is the exact
    quotient rounded to hundredths.  The five values of the specification
    come out as stated. *)
Theorem format_size_spec :
  (forall n, 0 <= n < 2 ^ 1023 ->
     exists x,
       float_of_int n = Ok x
       /\ format_size n
          = Ok (format_2f (divided x (unit_index n)) ++ " "
                  ++ unit_name (unit_index n))%string)
  /\ (forall n, 0 <= n < 2 ^ 53 ->
        format_size n
        = Ok (scaled_2f n (unit_index n) ++ " " ++ unit_name (unit_index n))%string)
  /\ (forall h,
        two_decimals h = (string_of_N (h / 100) ++ "." ++ digit (h / 10) ++ digit h)%string
        /\ String.length (digit (h / 10)) = 1%nat /\ String.length (digit h) = 1%nat)
  /\ format_size 0 = Ok "0.00 B"
  /\ format_size 1023 = Ok "1023.00 B"
  /\ format_size 1024 = Ok "1.00 KB"
  /\ format_size 1536 = Ok "1.50 KB"
  /\ format_size (1024 ^ 4) = Ok "1.00 TB".
Proof.
  split; [exact format_size_units|].
  split; [exact format_size_exact|].
  split; [intros h; repeat split; apply digit_one_char|].
  repeat split; vm_compute; reflexivity.
Qed.

Lemma format_size_spec_witness :
  format_size 5368709120
  = Ok (scaled_2f 5368709120 (unit_index 5368709120) ++ " "
          ++ unit_name (unit_index 5368709120))%string.
Proof.
  apply (proj1 (proj2 format_size_spec)). lia.
Defined.




(** ** The table *)

Lemma insert_desc_perm (x : string * Z) (l : list (string * Z)) :
  Permutation (x :: l) (insert_desc x l).
Proof.
  induction l as [|y l IH]; simpl.
  - apply Permutation_refl.
  - destruct (snd x <? snd y).
    + eapply perm_trans; [apply perm_swap|]. apply perm_skip, IH.
    + apply Permutation_refl.
Qed.

Lemma sorted_desc_perm (l : list (string * Z)) : Permutation l (sorted_desc l).
Proof.
  induction l as [|x l IH]; simpl.
  - constructor.
  - eapply perm_trans; [apply perm_skip, IH | apply insert_desc_perm].
Qed.

Lemma insert_desc_sorted (x : string * Z) (l : list (string * Z)) :
  Sorted (fun a b => snd b <= snd a) l ->
  Sorted (fun a b => snd b <= snd a) (insert_desc x l).
Proof.
  induction l as [|y l IH]; simpl; intros H.
  - repeat constructor.
  - destruct (snd x <? snd y) eqn:E.
    + inversion H as [|? ? Hs Hr]; subst. constructor; [apply IH, Hs|].
      destruct l as [|z l]; simpl.
      * constructor. apply Z.ltb_lt in E. lia.
      * destruct (snd x <? snd z).
        -- inversion Hr; subst. constructor. assumption.
        -- constructor. apply Z.ltb_lt in E. lia.
    + constructor; [exact H|]. constructor. apply Z.ltb_ge in E. exact E.
Qed.

Lemma sorted_desc_descending (l : list (string * Z)) : descending (sorted_desc l).
Proof.
  apply Sorted_StronglySorted.
  - intros a b c Hab Hbc. lia.
  - induction l as [|x l IH]; simpl; [constructor | apply insert_desc_sorted, IH].
Qed.

Lemma sorted_desc_nonempty (l : list (string * Z)) : l <> [] -> sorted_desc l <> [].
Proof.
  intros H E. apply H. apply Permutation_nil.
  rewrite <- E. apply Permutation_sym, sorted_desc_perm.
Qed.

(** Items of equal size keep the order they had in the dict. *)
Example sorted_desc_example :
  sorted_desc [("a", 1); ("b", 2); ("c", 1); ("d", 2)]
  = [("b", 2); ("d", 2); ("a", 1); ("c", 1)].
Proof. reflexivity. Qed.

(** ** Totals *)

Lemma sum_nonneg (d : dict) : byte_counts d -> 0 <= sum (values d).
Proof.
  induction 1 as [|[k v] d Hv _ IH]; unfold values in *; simpl.
  - unfold sum; simpl; lia.
  - rewrite sum_cons. simpl in Hv. lia.
Qed.

Lemma value_le_sum (d : dict) (kv : string * Z) :
  byte_counts d -> In kv d -> 0 <= snd kv <= sum (values d).
Proof.
  intros H. induction H as [|[k v] d Hv Hd IH]; intros Hin; [destruct Hin|].
  unfold values in *; simpl. rewrite sum_cons. simpl in Hv.
  pose proof (sum_nonneg d Hd) as Hs. unfold values in Hs.
  destruct Hin as [<-|Hin]; simpl.
  - lia.
  - specialize (IH Hin). lia.
Qed.

Lemma sum_zero (d : dict) :
  byte_counts d -> ~ Exists (fun kv => 0 < snd kv) d -> sum (values d) = 0.
Proof.
  induction 1 as [|[k v] d Hv Hd IH]; intros Hn; unfold values in *; simpl.
  - reflexivity.
  - rewrite sum_cons. simpl in Hv.
    assert (v = 0).
    { destruct (Z.eq_dec v 0) as [|Hne]; [assumption|].
      exfalso. apply Hn. constructor. simpl. lia. }
    rewrite IH; [lia|]. intros Hex. apply Hn. constructor 2. exact Hex.
Qed.

Lemma int_truediv_zero (a : Z) : int_truediv a 0 = Raise division_by_zero.
Proof. reflexivity. Qed.

(** ** The percentage of a row *)

Lemma round_half_even_bounds (a b : Z) :
  a / b <= round_half_even a b <= a / b + 1.
Proof.
  unfold round_half_even.
  destruct (2 * (a mod b) ?= b); [destruct (Z.even (a / b))| |]; lia.
Qed.

(** Rounding is faithful: the mantissa it returns, at the exponent it
    settles on, is the one cut off there or the next one. *)
Lemma binary_round_aux_faithful (s : bool) (mx ex : Z) (lx : location) :
  0 <= mx -> ex <= 971 -> Zdigits2 mx + ex <= 1023 ->
  exists M,
    mx / 2 ^ (Z.max ex (fexp prec emax (Zdigits2 mx + ex)) - ex) <= M
      <= mx / 2 ^ (Z.max ex (fexp prec emax (Zdigits2 mx + ex)) - ex) + 1
    /\ ((M = 0 /\ binary_round_aux prec emax s mx ex lx = S754_zero s)
        \/ exists m e,
             binary_round_aux prec emax s mx ex lx = S754_finite s m e
             /\ Z.max ex (fexp prec emax (Zdigits2 mx + ex)) <= e
                  <= Z.max ex (fexp prec emax (Zdigits2 mx + ex)) + 1
             /\ Z.pos m * 2 ^ (e - Z.max ex (fexp prec emax (Zdigits2 mx + ex))) = M).
Proof.
  intros Hm He Hd. unfold binary_round_aux, shr_fexp.
  set (E := Z.max ex (fexp prec emax (Zdigits2 mx + ex))).
  set (n1 := fexp prec emax (Zdigits2 mx + ex) - ex).
  assert (HE : E - ex = Z.max 0 n1) by (unfold E, n1; lia).
  assert (H1 := shr_spec (shr_record_of_loc mx lx) ex n1).
  rewrite shr_record_of_loc_m in H1. specialize (H1 Hm).
  destruct (shr (shr_record_of_loc mx lx) ex n1) as [mrs' e'].
  cbn [fst snd] in H1. destruct H1 as [He' Hm'].
  assert (HeE : e' = E) by lia.
  set (mr := round_nearest_even (shr_m mrs') (loc_of_shr_record mrs')).
  assert (Hmr := round_nearest_even_bounds (shr_m mrs') (loc_of_shr_record mrs')).
  fold mr in Hmr.
  assert (Hk : 0 < 2 ^ Z.max 0 n1) by (apply Z.pow_pos_nonneg; lia).
  assert (Hm'0 : 0 <= shr_m mrs') by (rewrite Hm'; apply Z.div_pos; lia).
  set (n2 := fexp prec emax (Zdigits2 mr + e') - e').
  assert (H2 := shr_spec (shr_record_of_loc mr loc_Exact) e' n2).
  rewrite shr_record_of_loc_m in H2. specialize (H2 ltac:(lia)).
  destruct (shr (shr_record_of_loc mr loc_Exact) e' n2) as [mrs'' e''].
  cbn [fst snd] in H2. destruct H2 as [He'' Hm''].
  assert (Hd' : Zdigits2 (shr_m mrs') <= Z.max (Zdigits2 mx - Z.max 0 n1) 0)
    by (rewrite Hm'; apply Zdigits2_div_pow; lia).
  pose proof (Zdigits2_nonneg mx) as Hdx.
  assert (Hd53 : Zdigits2 (shr_m mrs') <= 53).
  { unfold n1, fexp, SpecFloat.emin, prec, emax in *. lia. }
  assert (Hlt : shr_m mrs' < 2 ^ 53).
  { eapply Z.lt_le_trans; [apply Zdigits2_lt_pow, Hm'0|].
    apply Z.pow_le_mono_r; lia. }
  assert (Elow : -1074 <= e' <= 971).
  { unfold n1, fexp, SpecFloat.emin, prec, emax in *. lia. }
  exists mr. rewrite HE, <- Hm'. split; [exact Hmr|].
  destruct (Z_lt_le_dec mr (2 ^ 53)) as [Hsmall|Hbig].
  - assert (Hdr : Zdigits2 mr <= 53) by (apply Zdigits2_le; lia).
    assert (Hn2 : Z.max 0 n2 = 0).
    { unfold n2, fexp, SpecFloat.emin, prec, emax in *. lia. }
    rewrite Hn2 in *. change (2 ^ 0) with 1 in Hm''. rewrite Z.div_1_r in Hm''.
    rewrite Hm''. destruct mr as [|m|m]; [left; split; reflexivity| |lia].
    right. exists m, e''.
    replace (e'' <=? emax - prec) with true
      by (symmetry; apply Z.leb_le; unfold emax, prec; lia).
    split; [reflexivity|]. split; [lia|].
    replace (e'' - E) with 0 by lia. change (2 ^ 0) with 1. lia.
  - assert (Emr : mr = 2 ^ 53) by lia.
    assert (Hn1 : 0 <= n1).
    { destruct (Z_lt_le_dec n1 0) as [Hneg|]; [exfalso|assumption].
      assert (Zdigits2 mx <= 52)
        by (unfold n1, fexp, SpecFloat.emin, prec, emax in *; lia).
      assert (mx < 2 ^ 52).
      { eapply Z.lt_le_trans; [apply Zdigits2_lt_pow, Hm|].
        apply Z.pow_le_mono_r; lia. }
      rewrite Z.max_l in Hm' by lia. change (2 ^ 0) with 1 in Hm'.
      rewrite Z.div_1_r in Hm'.
      assert (2 ^ 52 < 2 ^ 53) by (apply Z.pow_lt_mono_r; lia). lia. }
    assert (Hn2 : Z.max 0 n2 = 1).
    { unfold n2. rewrite Emr. change (Zdigits2 (2 ^ 53)) with 54.
      unfold fexp, SpecFloat.emin, prec, emax in *. lia. }
    rewrite Hn2 in *. rewrite Emr in Hm''.
    change (2 ^ 53 / 2 ^ 1) with (Z.pos 4503599627370496) in Hm''.
    rewrite Hm''.
    right. exists 4503599627370496%positive, e''.
    assert (e'' <= 971).
    { unfold n1, fexp, SpecFloat.emin, prec, emax in *. lia. }
    replace (e'' <=? emax - prec) with true
      by (symmetry; apply Z.leb_le; unfold emax, prec; lia).
    split; [reflexivity|]. split; [lia|].
    replace (e'' - E) with 1 by lia. rewrite Emr. reflexivity.
Qed.

(** The quotient of two [int]s with [0 <= a <= b] as a double: a multiple
    [M] of [2^(-K)], less than one such step away from [a / b]. *)
Lemma int_truediv_close (a b : Z) :
  0 <= a <= b -> 0 < b ->
  exists M K,
    52 <= K /\ 0 <= M
    /\ (M - 1) * b <= a * 2 ^ K < (M + 1) * b
    /\ ((M = 0 /\ int_truediv a b = Ok (S754_zero false))
        \/ exists m e,
             int_truediv a b = Ok (S754_finite false m e)
             /\ - K <= e <= - K + 1 /\ Z.pos m * 2 ^ (e + K) = M).
Proof.
  intros Ha Hb. unfold int_truediv.
  replace (b =? 0)%Z with false by (symmetry; apply Z.eqb_neq; lia).
  destruct b as [|q|q]; try lia.
  destruct a as [|p|p]; try lia.
  - exists 0, 52. split; [lia|]. split; [lia|]. split; [lia|]. left. split; reflexivity.
  - cbn [exact_of_int SFdiv xorb]. unfold SFdiv_core_binary.
    set (e' := Z.min (fexp prec emax (Zdigits2 (Z.pos p) + 0 - (Zdigits2 (Z.pos q) + 0)))
                 (0 - 0)).
    assert (Hdd : Zdigits2 (Z.pos p) <= Zdigits2 (Z.pos q)) by (apply Zdigits2_mono; lia).
    assert (He' : e' <= -53)
      by (unfold e', fexp, SpecFloat.emin, prec, emax; lia).
    set (m' := match 0 - 0 - e' with
               | 0 => Z.pos p
               | Z.pos _ => Z.shiftl (Z.pos p) (0 - 0 - e')
               | Z.neg _ => 0
               end).
    assert (Hm' : m' = Z.pos p * 2 ^ (- e')).
    { unfold m'. destruct (0 - 0 - e') as [|k|k] eqn:E; try lia.
      rewrite Z.shiftl_mul_pow2 by lia. f_equal. f_equal. lia. }
    assert (Hp : 0 < 2 ^ (- e')) by (apply Z.pow_pos_nonneg; lia).
    pose proof (Z_div_mod m' (Z.pos q) ltac:(lia)) as Hdiv.
    destruct (Z.div_eucl m' (Z.pos q)) as [qq r].
    destruct Hdiv as [Hdiv Hr].
    assert (Hq0 : 0 <= qq) by nia.
    assert (Hq1 : qq <= 2 ^ (- e')) by nia.
    assert (Hdq : Zdigits2 qq <= - e' + 1).
    { apply Zdigits2_le; [lia | lia |].
      rewrite Z.pow_add_r by lia. change (2 ^ 1) with 2. lia. }
    destruct (binary_round_aux_faithful false qq e'
                (new_location (Z.pos q) r) Hq0 ltac:(lia) ltac:(lia))
      as [M [HM HR]].
    set (E := Z.max e' (fexp prec emax (Zdigits2 qq + e'))) in *.
    assert (HE : e' <= E <= -52).
    { pose proof (Zdigits2_nonneg qq).
      unfold E, fexp, SpecFloat.emin, prec, emax. lia. }
    set (c := 2 ^ (E - e')) in *.
    assert (Hc : 0 < c) by (apply Z.pow_pos_nonneg; lia).
    assert (Hsplit : 2 ^ (- e') = 2 ^ (- E) * c).
    { unfold c. rewrite <- Z.pow_add_r by lia. f_equal. lia. }
    assert (HA : 0 < 2 ^ (- E)) by (apply Z.pow_pos_nonneg; lia).
    pose proof (Z_div_mod_eq_full qq c) as Hqc.
    pose proof (Z.mod_pos_bound qq c Hc) as Hrc.
    assert (Hf0 : 0 <= qq / c) by (apply Z.div_pos; lia).
    exists M, (- E). split; [lia|]. split; [lia|]. split.
    + rewrite Hm', Hsplit in Hdiv.
      set (A := 2 ^ (- E)) in *. set (f := qq / c) in *. set (rho := qq mod c) in *.
      split.
      * apply Z.le_trans with (f * Z.pos q); [nia|].
        apply Z.mul_le_mono_pos_r with c; [lia|]. nia.
      * apply Z.lt_le_trans with ((f + 1) * Z.pos q); [|nia].
        apply Z.mul_lt_mono_pos_r with c; [lia|]. nia.
    + destruct HR as [[HM0 HR]|[m [e [HR [He Hme]]]]].
      * left. split; [exact HM0|]. rewrite HR. reflexivity.
      * right. exists m, e. rewrite HR. split; [reflexivity|].
        split; [lia|]. replace (e + - E) with (e - E) by lia. exact Hme.
Qed.

(** A double between 0 and 2 times [100], as a double: a multiple [M2] of
    [2^(-K2)], less than one such step away from the product. *)
Lemma SFmul_100_close (m : positive) (e : Z) :
  e <= 0 -> Z.pos m <= 2 ^ (1 - e) ->
  exists M2 K2,
    45 <= K2 /\ 0 <= M2
    /\ (M2 - 1) * 2 ^ (- e) <= 100 * Z.pos m * 2 ^ K2 < (M2 + 1) * 2 ^ (- e)
    /\ ((M2 = 0 /\ SFmul prec emax (S754_finite false m e) f100 = S754_zero false)
        \/ exists mp ep,
             SFmul prec emax (S754_finite false m e) f100 = S754_finite false mp ep
             /\ - K2 <= ep <= - K2 + 1 /\ Z.pos mp * 2 ^ (ep + K2) = M2).
Proof.
  intros He Hm. unfold f100. cbn [SFmul xorb].
  remember 7036874417766400%positive as c100 eqn:Ec.
  assert (H100 : Z.pos c100 = 100 * 2 ^ 46) by (subst c100; reflexivity).
  set (mx := Z.pos (m * c100)).
  assert (Hmx : mx = Z.pos m * 100 * 2 ^ 46) by (unfold mx; rewrite Pos2Z.inj_mul; lia).
  set (ex := e + -46).
  assert (HU : 0 < 2 ^ (- e)) by (apply Z.pow_pos_nonneg; lia).
  assert (Hmxlt : mx < 2 ^ (54 - e)).
  { rewrite Hmx. replace (54 - e) with ((1 - e) + 7 + 46) by lia.
    rewrite !Z.pow_add_r by lia. change (2 ^ 7) with 128.
    assert (0 < 2 ^ (1 - e)) by (apply Z.pow_pos_nonneg; lia).
    assert (0 < 2 ^ 46) by (apply Z.pow_pos_nonneg; lia). nia. }
  assert (Hdx : Zdigits2 mx <= 54 - e) by (apply Zdigits2_le; unfold mx; lia).
  pose proof (Zdigits2_nonneg mx) as Hdx0.
  destruct (binary_round_aux_faithful false mx ex loc_Exact
              ltac:(unfold mx; lia) ltac:(unfold ex; lia) ltac:(unfold ex; lia))
    as [M [HM HR]].
  set (E := Z.max ex (fexp prec emax (Zdigits2 mx + ex))) in *.
  assert (HE : ex <= E <= -45).
  { unfold E, ex, fexp, SpecFloat.emin, prec, emax. lia. }
  set (c := 2 ^ (E - ex)) in *.
  assert (Hc : 0 < c) by (apply Z.pow_pos_nonneg; lia).
  assert (HB : 0 < 2 ^ (- E)) by (apply Z.pow_pos_nonneg; lia).
  assert (Hsplit : c * 2 ^ (- E) = 2 ^ 46 * 2 ^ (- e)).
  { unfold c. rewrite <- !Z.pow_add_r by (unfold ex in *; lia). f_equal. unfold ex. lia. }
  pose proof (Z_div_mod_eq_full mx c) as Hqc.
  pose proof (Z.mod_pos_bound mx c Hc) as Hrc.
  assert (Hf0 : 0 <= mx / c) by (apply Z.div_pos; unfold mx; lia).
  assert (H46 : 0 < 2 ^ 46) by (apply Z.pow_pos_nonneg; lia).
  exists M, (- E). split; [lia|]. split; [lia|]. split.
  - set (B := 2 ^ (- E)) in *. set (U := 2 ^ (- e)) in *.
    set (f := mx / c) in *. set (rho := mx mod c) in *.
    set (T := 2 ^ 46) in *.
    split.
    + apply Z.mul_le_mono_pos_r with T; [lia|].
      apply Z.le_trans with (f * c * B); [nia|]. nia.
    + apply Z.mul_lt_mono_pos_r with T; [lia|].
      apply Z.lt_le_trans with ((f + 1) * c * B); [nia|]. nia.
  - fold ex. fold mx.
    destruct HR as [[HM0 HR]|[mp [ep [HR [Hep Hme]]]]].
    + left. split; [exact HM0 | exact HR].
    + right. exists mp, ep. split; [exact HR|].
      split; [lia|]. replace (ep + - E) with (ep - E) by lia. exact Hme.
Qed.

Lemma round_half_even_close (a b : Z) :
  0 < b -> Z.abs (2 * round_half_even a b * b - 2 * a) <= b.
Proof.
  intros Hb. unfold round_half_even.
  pose proof (Z_div_mod_eq_full a b) as E.
  pose proof (Z.mod_pos_bound a b Hb) as R.
  destruct (2 * (a mod b) ?= b) eqn:C.
  - apply Z.compare_eq in C. destruct (Z.even (a / b)); nia.
  - rewrite Z.compare_lt_iff in C. nia.
  - rewrite Z.compare_gt_iff in C. nia.
Qed.

Lemma round_half_even_nonneg (a b : Z) :
  0 <= a -> 0 < b -> 0 <= round_half_even a b.
Proof.
  intros Ha Hb. pose proof (round_half_even_bounds a b).
  assert (0 <= a / b) by (apply Z.div_pos; lia). lia.
Qed.

(** The hundredths printed for a double are at most half a hundredth away
    from the double. *)
Lemma hundredths_close (m : positive) (e : Z) :
  e < 0 ->
  Z.abs (2 * Z.of_N (hundredths m e) * 2 ^ (- e) - 200 * Z.pos m) <= 2 ^ (- e).
Proof.
  intros He. destruct e as [|p|p]; try lia.
  change (hundredths m (Z.neg p))
    with (Z.to_N (round_half_even (Z.pos m * 100) (2 ^ Z.pos p))).
  change (- Z.neg p) with (Z.pos p).
  assert (Hp : 0 < 2 ^ Z.pos p) by (apply Z.pow_pos_nonneg; lia).
  rewrite Z2N.id by (apply round_half_even_nonneg; lia).
  pose proof (round_half_even_close (Z.pos m * 100) (2 ^ Z.pos p) Hp). lia.
Qed.

(** Three steps, each a little off, stay less than one off together. *)
Lemma three_steps_close (s t M m M2 h A B U sigma : Z) :
  0 <= s -> 0 < t -> 2 ^ 52 <= A -> 2 ^ 45 <= B -> 0 < U -> 0 < sigma ->
  A = U * sigma -> M = m * sigma ->
  (M - 1) * t <= s * A < (M + 1) * t ->
  (M2 - 1) * U <= 100 * m * B < (M2 + 1) * U ->
  Z.abs (2 * h * B - 200 * M2) <= B ->
  Z.abs (h * t - 10000 * s) < t.
Proof.
  intros Hs Ht HA HB HU Hsig EA EM H1 H2 H3.
  change (2 ^ 52) with 4503599627370496 in HA.
  change (2 ^ 45) with 35184372088832 in HB.
  set (d3 := 2 * h * B - 200 * M2) in *.
  set (d2 := M2 * A - 100 * M * B).
  set (d1 := M * t - s * A).
  assert (B3 : - B <= d3 <= B) by lia.
  assert (B2 : - A <= d2 <= A).
  { unfold d2. subst A M. split.
    - assert ((100 * m * B) * sigma <= ((M2 + 1) * U) * sigma)
        by (apply Z.mul_le_mono_nonneg_r; lia). lia.
    - assert (((M2 - 1) * U) * sigma <= (100 * m * B) * sigma)
        by (apply Z.mul_le_mono_nonneg_r; lia). lia. }
  assert (B1 : - t <= d1 <= t) by (unfold d1; lia).
  assert (I : 2 * A * B * (h * t - 10000 * s)
              = A * t * d3 + 200 * t * d2 + 20000 * B * d1)
    by (unfold d3, d2, d1; ring).
  assert (P3 : - (A * t * B) <= A * t * d3 <= A * t * B).
  { assert (0 <= A * t) by nia. split; nia. }
  assert (P2 : - (200 * t * A) <= 200 * t * d2 <= 200 * t * A) by (split; nia).
  assert (P1 : - (20000 * B * t) <= 20000 * B * d1 <= 20000 * B * t) by (split; nia).
  assert (Hsmall : 200 * t * A + 20000 * B * t < A * t * B).
  { assert (400 * (t * A) <= B * (t * A)) by (apply Z.mul_le_mono_nonneg_r; nia).
    assert (40000 * (B * t) < A * (B * t)) by (apply Z.mul_lt_mono_pos_r; nia).
    lia. }
  assert (HAB : 0 < 2 * A * B) by nia.
  apply Z.abs_lt. split.
  - apply Z.mul_lt_mono_pos_l with (2 * A * B); [exact HAB|]. lia.
  - apply Z.mul_lt_mono_pos_l with (2 * A * B); [exact HAB|]. lia.
Qed.

(** The percentage of a row: the double [(size / total) * 100] is printed
    with two decimals, as a number of hundredths that is less than one
    hundredth away from the exact [100 * size / total]. *)
Lemma percentage_close (size total : Z) :
  0 <= size <= total -> 0 < total ->
  exists pct h,
    percentage size total = Ok pct
    /\ format_2f pct = two_decimals h
    /\ Z.abs (Z.of_N h * total - 10000 * size) < total.
Proof.
  intros Hs Ht. unfold percentage.
  destruct (int_truediv_close size total Hs Ht) as [M [K [HK [HM0 [HMb HR]]]]].
  assert (HA : 2 ^ 52 <= 2 ^ K) by (apply Z.pow_le_mono_r; lia).
  assert (HA0 : 0 < 2 ^ K) by (apply Z.pow_pos_nonneg; lia).
  destruct HR as [[HMz HR]|[m [e [HR [He Hme]]]]]; rewrite HR; cbn [bind].
  - exists (S754_zero false), 0%N. split; [reflexivity|]. split; [reflexivity|].
    subst M. change (2 ^ 52) with 4503599627370496 in HA.
    rewrite Z.abs_lt. split; nia.
  - assert (Hsig : 0 < 2 ^ (e + K)) by (apply Z.pow_pos_nonneg; lia).
    assert (HU : 0 < 2 ^ (- e)) by (apply Z.pow_pos_nonneg; lia).
    assert (EA : 2 ^ K = 2 ^ (- e) * 2 ^ (e + K))
      by (rewrite <- Z.pow_add_r by lia; f_equal; lia).
    assert (HMle : M <= 2 ^ K + 1) by nia.
    assert (Hm : Z.pos m <= 2 ^ (1 - e)).
    { replace (1 - e) with (1 + - e) by lia. rewrite Z.pow_add_r by lia.
      change (2 ^ 1) with 2.
      assert (C : e + K = 0 \/ e + K = 1) by lia.
      destruct C as [C|C]; rewrite C in *.
      - change (2 ^ 0) with 1 in *. nia.
      - change (2 ^ 1) with 2 in *. nia. }
    destruct (SFmul_100_close m e ltac:(lia) Hm) as [M2 [K2 [HK2 [HM20 [HM2b HP]]]]].
    assert (HB : 2 ^ 45 <= 2 ^ K2) by (apply Z.pow_le_mono_r; lia).
    assert (HB0 : 0 < 2 ^ K2) by (apply Z.pow_pos_nonneg; lia).
    destruct HP as [[HM2z HP]|[mp [ep [HP [Hep Hmp]]]]]; rewrite HP.
    + exists (S754_zero false), 0%N. split; [reflexivity|]. split; [reflexivity|].
      apply (three_steps_close size total M (Z.pos m) M2 0 (2 ^ K) (2 ^ K2)
               (2 ^ (- e)) (2 ^ (e + K)));
        [lia | exact Ht | exact HA | exact HB | exact HU | exact Hsig | exact EA
        | symmetry; exact Hme | exact HMb | exact HM2b |].
      subst M2. rewrite Z.mul_0_r, Z.mul_0_l, Z.sub_0_r. cbn [Z.abs]. lia.
    + exists (S754_finite false mp ep), (hundredths mp ep).
      split; [reflexivity|]. split; [reflexivity|].
      apply (three_steps_close size total M (Z.pos m) M2 (Z.of_N (hundredths mp ep))
               (2 ^ K) (2 ^ K2) (2 ^ (- e)) (2 ^ (e + K)));
        [lia | exact Ht | exact HA | exact HB | exact HU | exact Hsig | exact EA
        | symmetry; exact Hme | exact HMb | exact HM2b |].
      pose proof (hundredths_close mp ep ltac:(lia)) as H3.
      assert (Htau : 0 < 2 ^ (ep + K2)) by (apply Z.pow_pos_nonneg; lia).
      assert (EB : 2 ^ K2 = 2 ^ (- ep) * 2 ^ (ep + K2))
        by (rewrite <- Z.pow_add_r by lia; f_equal; lia).
      rewrite EB, <- Hmp.
      set (D := 2 ^ (- ep)) in *. set (tau := 2 ^ (ep + K2)) in *.
      set (h := Z.of_N (hundredths mp ep)) in *.
      replace (2 * h * (D * tau) - 200 * (Z.pos mp * tau))
        with ((2 * h * D - 200 * Z.pos mp) * tau) by ring.
      rewrite Z.abs_mul, (Z.abs_eq tau) by lia.
      apply Z.mul_le_mono_nonneg_r; lia.
Qed.

(** ** Rows *)

(** A count of hundredths that is less than one away from a quotient is the
    quotient rounded to hundredths, or the count next to that. *)
Lemma close_to_rounding (h a t : Z) :
  0 < t -> Z.abs (h * t - a) < t -> Z.abs (h - round_half_even a t) <= 1.
Proof.
  intros Ht H. pose proof (round_half_even_close a t Ht) as R.
  set (r := round_half_even a t) in *.
  apply Z.abs_lt in H. apply Z.abs_le in R. apply Z.abs_le.
  split; nia.
Qed.

Lemma row_ok (total : Z) (item : string * Z) :
  0 <= snd item <= total -> 0 < total < 2 ^ 1023 ->
  exists line, row total item = Ok line.
Proof.
  intros Hv Ht. destruct item as [k v]. cbn [snd] in Hv. unfold row, percentage.
  destruct (int_truediv_ok v total Hv ltac:(lia)) as [q [-> _]].
  destruct (format_size_ok v ltac:(lia)) as [fs ->].
  eexists. reflexivity.
Qed.

(** The row of an item that is part of the total. *)
Lemma row_shows (total : Z) (item : string * Z) :
  0 <= snd item <= total -> 0 < total < 2 ^ 1023 ->
  exists line, row total item = Ok line /\ row_of total item line.
Proof.
  intros Hv Ht. destruct item as [k v]. cbn [snd] in Hv. unfold row, row_of.
  cbn [fst snd].
  destruct (percentage_close v total Hv ltac:(lia)) as [pct [h [Ep [Ef Hh]]]].
  destruct (format_size_ok v ltac:(lia)) as [fs Es].
  rewrite Ep, Es. cbn [bind]. eexists. split; [reflexivity|].
  exists h, fs. split; [reflexivity|]. split; [rewrite Ef; reflexivity|].
  split; [exact Hh|]. split.
  - apply close_to_rounding; lia.
  - unfold percentage in Ep.
    destruct (int_truediv v total) as [q|e]; [|discriminate].
    cbn [bind] in Ep. injection Ep as <-. exists q. split; [reflexivity | exact Ef].
Qed.

Lemma print_rows_ok (total : Z) (items : list (string * Z)) :
  (forall item, In item items -> 0 <= snd item <= total) ->
  0 < total < 2 ^ 1023 ->
  exists lines,
    print_rows total items = (lines, Ok tt)
    /\ Forall2 (row_of total) items lines.
Proof.
  intros H Ht. induction items as [|item items IH].
  - exists []. split; [reflexivity | constructor].
  - destruct (row_shows total item (H item (or_introl eq_refl)) Ht) as [line [E R]].
    destruct (IH (fun i Hi => H i (or_intror Hi))) as [lines [E' F]].
    exists (line :: lines). cbn [print_rows]. rewrite E, E'.
    split; [reflexivity|]. constructor; [exact R | exact F].
Qed.

(** C5, as the code has it.  For a dict that is not empty, has no negative
    value and a total that is positive (and below [2^1023]),
    [display_results] prints the three head lines, one row per item, the
    items in descending order of size, then a rule, the total row with
    "Total", the formatted total and "100.00%", and a last rule.  A row
    shows the label, the formatted size and a percentage with two decimals
    that is less than 0.01 away from the exact [100 * size / total] and at
    most one unit of the last digit away from its rounding to two decimals:
    it is the double [(size / total) * 100] that is printed. *)
Theorem display_results_table (d : dict) :
  d <> [] -> byte_counts d -> 0 < sum (values d) < 2 ^ 1023 ->
  exists rows formatted_total,
    display_results d
    = (head_lines ++ rows
         ++ [rule;
             (ljust 30 "Total" ++ " " ++ ljust 20 formatted_total ++ " "
                ++ rjust 10 "100.00%")%string;
             (rule ++ newline)%string],
       Ok tt)
    /\ format_size (sum (values d)) = Ok formatted_total
    /\ Forall2 (row_of (sum (values d))) (sorted_desc d) rows
    /\ Permutation d (sorted_desc d)
    /\ descending (sorted_desc d).
Proof.
  intros Hne Hb Ht.
  destruct (print_rows_ok (sum (values d)) (sorted_desc d)) as [rows [E F]].
  { intros item Hin. apply value_le_sum; [exact Hb|].
    eapply Permutation_in; [apply Permutation_sym, sorted_desc_perm | exact Hin]. }
  { exact Ht. }
  destruct (format_size_ok (sum (values d)) ltac:(lia)) as [t Et].
  exists rows, t. split; [|split; [exact Et|split; [exact F|split]]].
  - unfold display_results. destruct d as [|kv d]; [congruence|].
    rewrite E. unfold print_total. rewrite Et. reflexivity.
  - apply sorted_desc_perm.
  - apply sorted_desc_descending.
Qed.

Lemma display_results_table_witness :
  exists rows formatted_total,
    display_results [("text", 2000); ("image", 2048)]
    = (head_lines ++ rows
         ++ [rule;
             (ljust 30 "Total" ++ " " ++ ljust 20 formatted_total ++ " "
                ++ rjust 10 "100.00%")%string;
             (rule ++ newline)%string],
       Ok tt)
    /\ format_size (sum (values [("text", 2000); ("image", 2048)])) = Ok formatted_total
    /\ Forall2 (row_of (sum (values [("text", 2000); ("image", 2048)])))
         (sorted_desc [("text", 2000); ("image", 2048)]) rows
    /\ Permutation [("text", 2000); ("image", 2048)]
         (sorted_desc [("text", 2000); ("image", 2048)])
    /\ descending (sorted_desc [("text", 2000); ("image", 2048)]).
Proof.
  apply (display_results_table [("text", 2000); ("image", 2048)]).
  - discriminate.
  - repeat constructor; simpl; lia.
  - split; vm_compute; reflexivity.
Defined.

(** The table of the end-to-end scenario. *)
Example display_results_example :
  fst (display_results [("text", 2000); ("image", 2048)])
  = head_lines
      ++ ["image                          2.00 KB                  50.59%";
          "text                           1.95 KB                  49.41%";
          rule;
          "Total                          3.95 KB                 100.00%";
          (rule ++ newline)%string].
Proof. vm_compute. reflexivity. Qed.

(** C5, as the claim has it, fails: for a size of 921925914561 out of
    958891169131 bytes the exact percentage is 96.145000000000005..., which
    rounds to 96.15 and is no tie, while the row shows 96.14: the quotient
    and its product with 100 are each rounded to a double, and the double
    printed is 96.14499999999999602... *)
Lemma percentage_counterexample :
  nth 3 (fst (display_results big_dict)) ""
  = "video                          858.61 GB                96.14%"
  /\ two_decimals (Z.to_N (round_half_even (100 * 921925914561 * 100) (sum (values big_dict))))
     = "96.15"
  /\ (2 * ((100 * 921925914561 * 100) mod sum (values big_dict))
        ?= sum (values big_dict)) = Gt.
Proof. repeat split; vm_compute; reflexivity. Qed.

(** C9.  In a dict that is not empty and has no negative value, every
    division of an item's size by the total goes through exactly when some
    value is positive.  When none is, as after a scan that met only empty
    files, the first row already raises [ZeroDivisionError]: the three head
    lines are all that is printed. *)
Theorem division_guard (d : dict) :
  d <> [] -> byte_counts d ->
  ((forall kv, In kv d -> is_ok (int_truediv (snd kv) (sum (values d))) = true)
   <-> Exists (fun kv => 0 < snd kv) d)
  /\ (~ Exists (fun kv => 0 < snd kv) d ->
      display_results d = (head_lines, Raise division_by_zero)).
Proof.
  intros Hne Hb. split; [split|].
  - intros H. destruct (Exists_dec (fun kv => 0 < snd kv) d) as [Hex|Hn];
      [intros kv; apply Z_lt_dec | exact Hex |].
    exfalso. destruct d as [|kv d]; [congruence|].
    specialize (H kv (or_introl eq_refl)).
    rewrite (sum_zero _ Hb Hn), int_truediv_zero in H. discriminate.
  - intros Hex kv Hin.
    apply Exists_exists in Hex as [kv' [Hin' Hpos]].
    pose proof (value_le_sum d kv' Hb Hin') as H'.
    destruct (int_truediv_ok (snd kv) (sum (values d))
                (value_le_sum d kv Hb Hin) ltac:(lia)) as [x [-> _]].
    reflexivity.
  - intros Hn. unfold display_results.
    destruct d as [|kv d]; [congruence|].
    rewrite (sum_zero _ Hb Hn).
    pose proof (sorted_desc_nonempty (kv :: d) Hne) as Hs.
    destruct (sorted_desc (kv :: d)) as [|[k v] items]; [congruence|].
    cbn [print_rows row]. unfold percentage. rewrite int_truediv_zero. reflexivity.
Qed.

Lemma division_guard_witness :
  ((forall kv, In kv [("empty", 0); ("text", 0)] ->
      is_ok (int_truediv (snd kv) (sum (values [("empty", 0); ("text", 0)]))) = true)
   <-> Exists (fun kv => 0 < snd kv) [("empty", 0); ("text", 0)])
  /\ (~ Exists (fun kv => 0 < snd kv) [("empty", 0); ("text", 0)] ->
      display_results [("empty", 0); ("text", 0)] = (head_lines, Raise division_by_zero)).
Proof.
  apply (division_guard [("empty", 0); ("text", 0)]).
  - discriminate.
  - repeat constructor; simpl; lia.
Defined.

(** ** The program *)

(** C6, where the code breaks it.  The path is a directory that holds one
    empty file: the scan returns a dict with the value 0, [display_results]
    raises [ZeroDivisionError] after the head of the table, and the program
    ends with the status 1 and a traceback. *)
Theorem main_empty_files_crash :
  scan_directory ["d"] (Dir true [("empty.bin", File (Ok 0%N))]) say_empty
  = ([EvStat ["d"; "empty.bin"]; EvIdentify ["d"; "empty.bin"]], Ok [("empty", 0)])
  /\ main (Some "d") (fun _ => empty_file_dir) say_empty
     = Run head_lines
           ["Traceback (most recent call last):"; "ZeroDivisionError: division by zero"]
           1.
Proof. split; reflexivity. Qed.

(** The two fatal cases of C6: a path that does not exist or is not a
    directory ends the program with the status 1, a line on standard error
    that names the path as [str(Path(arg))] prints it, and nothing on
    standard output. *)
Lemma main_fatal (arg : option string) (fs : string -> target) (magika : classifier) :
  let directory := path_str (Path (match arg with Some d => d | None => "." end)) in
  (fs directory = Missing ->
   main arg fs magika
   = Run [] [("Error: Directory '" ++ directory ++ "' does not exist.")%string] 1)
  /\ (fs directory = NotADirectory ->
      main arg fs magika
      = Run [] [("Error: '" ++ directory ++ "' is not a directory.")%string] 1).
Proof.
  split; intros H; unfold main; rewrite H; reflexivity.
Qed.

(** The warnings of a scan leave the status alone: when the scan and the
    report both return, the status is 0 whatever was written to standard
    error. *)
Lemma main_status_0 (arg : option string) (fs : string -> target) (magika : classifier)
    (listable : bool) (entries : list (string * node)) (evs : list event)
    (sizes : dict) (out : list string) :
  let directory := Path (match arg with Some d => d | None => "." end) in
  fs (path_str directory) = Directory listable entries ->
  scan_directory directory (Dir listable entries) magika = (evs, Ok sizes) ->
  display_results sizes = (out, Ok tt) ->
  main arg fs magika = Run out (stderr_of evs) 0.
Proof.
  intros directory H1 H2 H3. unfold main. fold directory.
  rewrite H1, H2, H3. reflexivity.
Qed.

(** The end-to-end scenario: two text files, an image, a file the
    classifier fails on, a file that is gone, a symbolic link to a file and
    one to a directory. *)
Example main_example :
  main (Some "d/") (fun _ => Directory true example_entries) example_magika
  = Run (head_lines
           ++ ["image                          2.00 KB                  50.59%";
               "text                           1.95 KB                  49.41%";
               rule;
               "Total                          3.95 KB                 100.00%";
               (rule ++ newline)%string])
        ["Warning: Could not process d/sub/locked: [Errno 13] Permission denied";
         "Warning: Could not process d/sub/gone: [Errno 2] No such file or directory"]
        0.
Proof. vm_compute. reflexivity. Qed.

(** Without an argument the current directory is scanned, and the paths of
    its files are named without a leading dot. *)
Example main_default_directory :
  main None (fun _ => Directory true [("gone", File (Raise no_such_file))]) example_magika
  = Run ["No files found."]
        ["Warning: Could not process gone: [Errno 2] No such file or directory"]
        0.
Proof. vm_compute. reflexivity. Qed.

(** Paths as [pathlib] prints them. *)
Example path_str_examples :
  path_str (Path ".") = "."
  /\ path_str (Path "d/") = "d"
  /\ path_str (Path "./d//sub/.") = "d/sub"
  /\ path_str (Path "/var/../tmp/") = "/var/../tmp"
  /\ path_str (Path "//srv") = "//srv"
  /\ path_str (Path "///srv") = "/srv"
  /\ path_str (joinpath (Path ".") "a.txt") = "a.txt"
  /\ path_str (joinpath (Path "/") "a.txt") = "/a.txt".
Proof. repeat split; reflexivity. Qed.

(** A path that is not there is reported under the name [pathlib] gives
    it. *)
Example main_missing :
  main (Some "x/") (fun _ => Missing) example_magika
  = Run [] ["Error: Directory 'x' does not exist."] 1.
Proof. reflexivity. Qed.


(** * Further properties of the scan *)

(** The calls a loop over visited files makes when it runs to its end. *)
Lemma process_visited_calls magika (fs : list (path * file_entry)) :
  forall sizes evs r,
    forallb (handled magika) fs = true ->
    process_visited magika sizes fs = (evs, r) ->
    stat_calls evs = map fst (filter real fs)
    /\ identify_calls evs = map fst (filter sized fs).
Proof.
  induction fs as [|f fs IH]; intros sizes evs r H E.
  - injection E as <- _. split; reflexivity.
  - cbn [forallb] in H. apply andb_prop in H as [Hf H].
    unfold handled in Hf. cbn [process_visited filter] in *.
    unfold sized, real, fate_of in *.
    destruct (is_symlink (snd f)) as [[|]|e0]; cbn [negb andb]; [eapply IH; eauto| |discriminate].
    destruct (fe_stat (snd f)) as [size|e]; cbn [is_ok].
    + destruct (magika (fst f)) as [label|e].
      * destruct (process_visited magika (dict_add sizes label (Z.of_N size)) fs)
          as [evs' r'] eqn:E'.
        injection E as <- _. destruct (IH _ _ _ H E') as [I1 I2].
        cbn [stat_calls identify_calls map]. rewrite I1, I2. split; reflexivity.
      * rewrite Hf in E.
        destruct (process_visited magika sizes fs) as [evs' r'] eqn:E'.
        injection E as <- _. destruct (IH _ _ _ H E') as [I1 I2].
        cbn [app stat_calls identify_calls map]. rewrite I1, I2. split; reflexivity.
    + rewrite Hf in E.
      destruct (process_visited magika sizes fs) as [evs' r'] eqn:E'.
      injection E as <- _. destruct (IH _ _ _ H E') as [I1 I2].
      cbn [app stat_calls identify_calls map]. rewrite I1, I2. split; reflexivity.
Qed.

(** X1.  The dict a scan returns has no key twice and no negative value. *)
Theorem scan_result_well_formed (directory : path) (tree : node) (magika : classifier)
    (evs : list event) (sizes : dict) :
  scan_directory directory tree magika = (evs, Ok sizes) ->
  NoDup (keys sizes) /\ byte_counts sizes.
Proof.
  intros E. destruct (scan_directory_invariant _ _ _ _ _ E). auto.
Qed.

Lemma scan_result_well_formed_witness :
  NoDup (keys [("text", 2000); ("image", 2048)])
  /\ byte_counts [("text", 2000); ("image", 2048)].
Proof.
  eapply (scan_result_well_formed ["d"] (Dir true example_entries) example_magika).
  reflexivity.
Defined.

(** X2.  When no exception leaves the loops, what the scan writes to
    standard error is one warning for each file that failed inside the
    [try], in the order the files were visited, and nothing else. *)
Theorem scan_directory_warnings (directory : path) (tree : node) (magika : classifier) :
  forallb (handled magika) (visited (walk directory tree)) = true ->
  exists evs sizes,
    scan_directory directory tree magika = (evs, Ok sizes)
    /\ stderr_of evs = warnings (failures magika (visited (walk directory tree))).
Proof.
  intros H. unfold scan_directory. rewrite process_walk_visited.
  destruct (process_visited_handled magika _ [] H) as [evs [E1 E2]].
  exists evs. eexists. split; [exact E1 | exact E2].
Qed.

Lemma scan_directory_warnings_witness :
  exists evs sizes,
    scan_directory ["d"] (Dir true example_entries) example_magika = (evs, Ok sizes)
    /\ stderr_of evs
       = warnings (failures example_magika
                     (visited (walk ["d"] (Dir true example_entries)))).
Proof.
  apply (scan_directory_warnings ["d"] (Dir true example_entries) example_magika).
  reflexivity.
Defined.

(** X3.  The first file at which an exception leaves the loops (one
    [is_symlink()] raises, before the [try], or one the [except] clause does
    not catch) ends the scan with that exception.  The warnings of the files
    before it have been written and none for it; [stat] and the classifier
    have been called for the files up to it and for no file after it, and
    not for it when it was [is_symlink()] that raised. *)
Theorem first_uncaught_error_ends_scan (directory : path) (tree : node)
    (magika : classifier) (before after : list (path * file_entry))
    (f : path * file_entry) (e : exn) :
  visited (walk directory tree) = before ++ f :: after ->
  forallb (handled magika) before = true ->
  escapes magika f = Some e ->
  exists evs,
    scan_directory directory tree magika = (evs, Raise e)
    /\ stderr_of evs = warnings (failures magika before)
    /\ stat_calls evs = map fst (filter real (before ++ [f]))
    /\ identify_calls evs = map fst (filter sized (before ++ [f])).
Proof.
  intros V Hb Hf. unfold scan_directory.
  rewrite process_walk_visited, V, process_visited_app.
  destruct (process_visited_handled magika before [] Hb) as [evs1 [E1 W1]].
  destruct (process_visited_calls magika before _ _ _ Hb E1) as [S1 I1].
  rewrite E1. cbn [process_visited].
  rewrite !filter_app, !map_app. cbn [filter].
  assert (R : real f = match is_symlink (snd f) with Ok false => true | _ => false end)
    by reflexivity.
  assert (Z : sized f = real f && is_ok (fe_stat (snd f))) by reflexivity.
  rewrite Z, R. clear R Z.
  unfold escapes, fate_of in *.
  destruct (is_symlink (snd f)) as [[|]|e0]; [discriminate| |].
  - destruct (fe_stat (snd f)) as [size|e1].
    + destruct (magika (fst f)) as [label|e1]; [discriminate|].
      destruct (caught e1); [discriminate|]. injection Hf as ->.
      eexists. split; [reflexivity|].
      rewrite stderr_of_app, stat_calls_app, identify_calls_app, W1, S1, I1.
      cbn [stderr_of stat_calls identify_calls map andb is_ok].
      rewrite app_nil_r. auto.
    + destruct (caught e1); [discriminate|]. injection Hf as ->.
      eexists. split; [reflexivity|].
      rewrite stderr_of_app, stat_calls_app, identify_calls_app, W1, S1, I1.
      cbn [stderr_of stat_calls identify_calls map andb is_ok].
      rewrite !app_nil_r. auto.
  - injection Hf as ->.
    eexists. split; [reflexivity|].
    rewrite !app_nil_r, W1, S1, I1.
    cbn [map andb]. rewrite ?app_nil_r. auto.
Qed.

Lemma first_uncaught_error_ends_scan_witness :
  exists evs,
    scan_directory ["d"]
      (Dir true [("a.txt", File (Ok 500%N)); ("sub", Dir true unsearchable)]) example_magika
    = (evs, Raise permission_denied)
    /\ stderr_of evs = warnings (failures example_magika
                                   [(["d"; "a.txt"], FileEntry false None (Ok 500%N))])
    /\ stat_calls evs
       = map fst (filter real
                    ([(["d"; "a.txt"], FileEntry false None (Ok 500%N))]
                       ++ [(["d"; "sub"; "f.txt"],
                            FileEntry false (Some permission_denied)
                              (Raise permission_denied))]))
    /\ identify_calls evs
       = map fst (filter sized
                    ([(["d"; "a.txt"], FileEntry false None (Ok 500%N))]
                       ++ [(["d"; "sub"; "f.txt"],
                            FileEntry false (Some permission_denied)
                              (Raise permission_denied))])).
Proof.
  apply (first_uncaught_error_ends_scan ["d"]
           (Dir true [("a.txt", File (Ok 500%N)); ("sub", Dir true unsearchable)])
           example_magika
           [(["d"; "a.txt"], FileEntry false None (Ok 500%N))]
           [(["d"; "sub"; "l"],
             FileEntry true (Some permission_denied) (Raise permission_denied))]
           (["d"; "sub"; "f.txt"],
            FileEntry false (Some permission_denied) (Raise permission_denied))
           permission_denied);
    reflexivity.
Defined.

(** X4.  In a scan that returns, [stat] is called once for every visited
    file [is_symlink()] answered [False] for, in visiting order, and the
    classifier once for every such file whose size could be read: never for
    a symbolic link, never for a file whose [stat] failed. *)
Theorem scan_directory_calls (directory : path) (tree : node) (magika : classifier) :
  forallb (handled magika) (visited (walk directory tree)) = true ->
  exists evs sizes,
    scan_directory directory tree magika = (evs, Ok sizes)
    /\ stat_calls evs = map fst (filter real (visited (walk directory tree)))
    /\ identify_calls evs = map fst (filter sized (visited (walk directory tree))).
Proof.
  intros H. unfold scan_directory. rewrite process_walk_visited.
  destruct (process_visited_handled magika _ [] H) as [evs [E _]].
  exists evs. eexists. split; [exact E|].
  exact (process_visited_calls magika _ _ _ _ H E).
Qed.

Lemma scan_directory_calls_witness :
  exists evs sizes,
    scan_directory ["d"] (Dir true example_entries) example_magika = (evs, Ok sizes)
    /\ stat_calls evs
       = map fst (filter real (visited (walk ["d"] (Dir true example_entries))))
    /\ identify_calls evs
       = map fst (filter sized (visited (walk ["d"] (Dir true example_entries)))).
Proof.
  apply (scan_directory_calls ["d"] (Dir true example_entries) example_magika).
  reflexivity.
Defined.


(** ** The order of the keys *)

Lemma filter_ext_in_keys {A : Type} (f g : A -> bool) (l : list A) :
  (forall x, f x = g x) -> filter f l = filter g l.
Proof.
  intros H. induction l as [|x l IH]; simpl; [reflexivity|].
  rewrite H, IH. reflexivity.
Qed.

Lemma filter_filter_and {A : Type} (f g : A -> bool) (l : list A) :
  filter f (filter g l) = filter (fun x => g x && f x) l.
Proof.
  induction l as [|x l IH]; simpl; [reflexivity|].
  destruct (g x); simpl; [destruct (f x)|]; rewrite IH; reflexivity.
Qed.

Lemma existsb_app_one (k x : string) (l : list string) :
  existsb (String.eqb k) (l ++ [x]) = existsb (String.eqb k) l || String.eqb k x.
Proof. rewrite existsb_app. simpl. rewrite orb_false_r. reflexivity. Qed.

Lemma filter_true_keys (l : list string) : filter (fun _ => true) l = l.
Proof. induction l as [|x l IH]; simpl; [|rewrite IH]; reflexivity. Qed.

(** The keys of an accumulator: those it had, then the new labels, each
    where it first occurs. *)
Lemma keys_accumulate (l : list (string * Z)) (d : dict) :
  keys (accumulate d l)
  = keys d
      ++ filter (fun k => negb (existsb (String.eqb k) (keys d)))
           (first_seen (map fst l)).
Proof.
  revert d; induction l as [|[k v] l IH]; intros d.
  - simpl. rewrite app_nil_r. reflexivity.
  - unfold accumulate in *. cbn [fold_left map fst snd first_seen filter].
    rewrite IH, keys_add.
    destruct (existsb (String.eqb k) (keys d)) eqn:E; cbn [negb].
    + f_equal. rewrite filter_filter_and. apply filter_ext_in_keys.
      intros x. destruct (String.eqb x k) eqn:Ex; cbn [negb andb]; [|reflexivity].
      apply String.eqb_eq in Ex. subst x. rewrite E. reflexivity.
    + rewrite <- app_assoc. cbn [app]. do 2 f_equal.
      rewrite filter_filter_and. apply filter_ext_in_keys.
      intros x. rewrite existsb_app_one, negb_orb, andb_comm. reflexivity.
Qed.

(** X5.  The keys of the dict a scan returns are the labels of the
    files it counted, each once, in the order in which the scan first met
    them. *)
Theorem scan_directory_key_order (directory : path) (tree : node) (magika : classifier) :
  forallb (handled magika) (visited (walk directory tree)) = true ->
  exists evs sizes,
    scan_directory directory tree magika = (evs, Ok sizes)
    /\ keys sizes
       = first_seen (map fst (counted magika (visited (walk directory tree)))).
Proof.
  intros H. unfold scan_directory. rewrite process_walk_visited.
  destruct (process_visited_handled magika _ [] H) as [evs [E _]].
  exists evs. eexists. split; [exact E|].
  rewrite keys_accumulate. cbn [keys map app existsb negb].
  apply filter_true_keys.
Qed.

Lemma scan_directory_key_order_witness :
  exists evs sizes,
    scan_directory ["d"] (Dir true example_entries) example_magika = (evs, Ok sizes)
    /\ keys sizes
       = first_seen (map fst (counted example_magika
                                (visited (walk ["d"] (Dir true example_entries))))).
Proof.
  apply (scan_directory_key_order ["d"] (Dir true example_entries) example_magika).
  reflexivity.
Defined.

(** X6.  A file that is sized and labelled causes one [stat], one call of
    the classifier and no warning; afterwards its label is mapped to what it
    was mapped to before (0 for a new label) plus the size, every other label
    is mapped as before, and the total has grown by the size. *)
Theorem counted_file_is_added (magika : classifier) (sizes : dict) (root : path)
    (f : string * file_entry) (label : string) (size : Z) :
  fate_of magika (joinpath root (fst f), snd f) = Counted label size ->
  exists sizes',
    process_file magika sizes root f
    = ([EvStat (joinpath root (fst f)); EvIdentify (joinpath root (fst f))], Ok sizes')
    /\ dict_get sizes' label = Some (size_of sizes label + size)
    /\ (forall other, other <> label -> dict_get sizes' other = dict_get sizes other)
    /\ sum (values sizes') = sum (values sizes) + size.
Proof.
  intros Hf. rewrite process_file_visited. cbn [process_visited fst snd].
  rewrite Hf. eexists. split; [reflexivity|]. split; [|split].
  - rewrite dict_get_add, String.eqb_refl. reflexivity.
  - intros other Hne. rewrite dict_get_add.
    destruct (String.eqb label other) eqn:E; [|reflexivity].
    apply String.eqb_eq in E. congruence.
  - apply sum_values_add.
Qed.

Lemma counted_file_is_added_witness :
  exists sizes',
    process_file example_magika [("text", 500)] ["d"; "sub"]
      ("b.txt", FileEntry false None (Ok 1500%N))
    = ([EvStat (joinpath ["d"; "sub"] "b.txt"); EvIdentify (joinpath ["d"; "sub"] "b.txt")],
       Ok sizes')
    /\ dict_get sizes' "text" = Some (size_of [("text", 500)] "text" + 1500)
    /\ (forall other, other <> "text" ->
          dict_get sizes' other = dict_get [("text", 500)] other)
    /\ sum (values sizes') = sum (values [("text", 500)]) + 1500.
Proof.
  apply (counted_file_is_added example_magika [("text", 500)] ["d"; "sub"]
           ("b.txt", FileEntry false None (Ok 1500%N)) "text" 1500).
  reflexivity.
Defined.

(** * Further properties of the report *)

Lemma insert_desc_stable (v : Z) (x : string * Z) (l : list (string * Z)) :
  filter (fun kv => snd kv =? v) (insert_desc x l)
  = filter (fun kv => snd kv =? v) (x :: l).
Proof.
  induction l as [|y l IH]; [reflexivity|].
  cbn [insert_desc]. destruct (snd x <? snd y) eqn:E; [|reflexivity].
  cbn [filter] in *. rewrite IH.
  destruct (snd x =? v) eqn:Ex; [|reflexivity].
  apply Z.eqb_eq in Ex. apply Z.ltb_lt in E.
  replace (snd y =? v) with false by (symmetry; apply Z.eqb_neq; lia).
  reflexivity.
Qed.

(** X7.  The sort of the report is stable: the items of any one size stand
    in the sorted list in the order they have in the dict. *)
Theorem sorted_desc_stable (l : list (string * Z)) (v : Z) :
  filter (fun kv => snd kv =? v) (sorted_desc l)
  = filter (fun kv => snd kv =? v) l.
Proof.
  induction l as [|x l IH]; [reflexivity|].
  cbn [sorted_desc]. rewrite insert_desc_stable. cbn [filter]. rewrite IH.
  reflexivity.
Qed.

(** The quotient of a positive [int] by itself is the double [1.0]. *)
Lemma int_truediv_self (v : Z) : 0 < v -> int_truediv v v = Ok f1.
Proof.
  intros Hv. destruct v as [|p|p]; try lia.
  unfold int_truediv. cbn [Z.eqb exact_of_int SFdiv xorb].
  unfold SFdiv_core_binary.
  replace (Zdigits2 (Z.pos p) + 0 - (Zdigits2 (Z.pos p) + 0)) with 0 by lia.
  replace (Z.min (fexp prec emax 0) (0 - 0)) with (-53) by reflexivity.
  replace (0 - 0 - -53) with 53 by reflexivity.
  rewrite Z.shiftl_mul_pow2 by lia.
  assert (Hq : Z.pos p * 2 ^ 53 / Z.pos p = 2 ^ 53).
  { rewrite Z.mul_comm. apply Z.div_mul. discriminate. }
  assert (Hr : (Z.pos p * 2 ^ 53) mod Z.pos p = 0).
  { rewrite Z.mul_comm. apply Z.mod_mul. discriminate. }
  unfold Z.div in Hq. unfold Z.modulo in Hr.
  destruct (Z.div_eucl (Z.pos p * 2 ^ 53) (Z.pos p)) as [q r].
  cbn [fst snd] in Hq, Hr. subst q r.
  replace (new_location (Z.pos p) 0) with loc_Exact
    by (unfold new_location; destruct (Z.even (Z.pos p)); reflexivity).
  replace (binary_round_aux prec emax false (2 ^ 53) (-53) loc_Exact) with f1
    by (vm_compute; reflexivity).
  reflexivity.
Qed.

(** X8.  A dict with one entry of a positive size is reported with
    100.00% in its row, whatever the size: the quotient of the size by the
    total is the double 1.0 exactly. *)
Theorem single_type_report (label : string) (size : Z) :
  0 < size < 2 ^ 1023 ->
  exists formatted_size,
    format_size size = Ok formatted_size
    /\ display_results [(label, size)]
       = (head_lines
            ++ [(ljust 30 label ++ " " ++ ljust 20 formatted_size ++ " "
                   ++ "   100.00%")%string;
                rule;
                (ljust 30 "Total" ++ " " ++ ljust 20 formatted_size ++ " "
                   ++ rjust 10 "100.00%")%string;
                (rule ++ newline)%string],
          Ok tt).
Proof.
  intros Hs. destruct (format_size_ok size ltac:(lia)) as [fs E].
  exists fs. split; [exact E|].
  unfold display_results. cbn [values map snd sorted_desc insert_desc].
  replace (sum [size]) with size by (unfold sum; simpl; lia).
  cbn [print_rows row]. unfold percentage, print_total.
  rewrite int_truediv_self by lia. cbn [bind]. rewrite E. cbn [bind].
  replace (format_2f (SFmul prec emax f1 f100)) with "100.00"%string
    by (vm_compute; reflexivity).
  reflexivity.
Qed.

Lemma single_type_report_witness :
  exists formatted_size,
    format_size 4096 = Ok formatted_size
    /\ display_results [("text", 4096)]
       = (head_lines
            ++ [(ljust 30 "text" ++ " " ++ ljust 20 formatted_size ++ " "
                   ++ "   100.00%")%string;
                rule;
                (ljust 30 "Total" ++ " " ++ ljust 20 formatted_size ++ " "
                   ++ rjust 10 "100.00%")%string;
                (rule ++ newline)%string],
          Ok tt).
Proof.
  apply (single_type_report "text" 4096). split; vm_compute; reflexivity.
Defined.

(** X9.  In a report with a positive total, a type whose files are all
    empty gets a row of its own, with the size 0.00 B and 0.00%. *)
Theorem empty_type_row (total : Z) (label : string) :
  0 < total ->
  row total (label, 0)
  = Ok (ljust 30 label ++ " " ++ "0.00 B              " ++ " " ++ "     0.00%")%string.
Proof.
  intros Ht. destruct total as [|p|p]; try lia. reflexivity.
Qed.

Lemma empty_type_row_witness :
  row 4048 ("empty", 0)
  = Ok (ljust 30 "empty" ++ " " ++ "0.00 B              " ++ " " ++ "     0.00%")%string.
Proof.
  apply (empty_type_row 4048 "empty"). reflexivity.
Defined.

(** * Further properties of [format_size] and [main] *)

(** An [int] of [2^1024] or more rounds beyond the largest double. *)
Lemma binary_round_overflow (s : bool) (p : positive) :
  2 ^ 1024 <= Z.pos p -> binary_round prec emax s p 0 = S754_infinity s.
Proof.
  intros Hp. pose proof (digits2_bounds p) as Hb.
  set (dp := Z.pos (digits2_pos p)) in *.
  assert (Hdp : 1025 <= dp).
  { destruct (Z_lt_le_dec dp 1025) as [H|H]; [|exact H].
    assert (2 ^ dp <= 2 ^ 1024) by (apply Z.pow_le_mono_r; lia). lia. }
  unfold binary_round, shl_align. fold dp.
  replace (fexp prec emax (dp + 0) - 0) with (dp - 53)
    by (unfold fexp, SpecFloat.emin, prec, emax; lia).
  destruct (dp - 53) as [|d|d] eqn:Ed; try lia.
  unfold binary_round_aux, shr_fexp. cbn [Zdigits2]. fold dp.
  replace (fexp prec emax (dp + 0) - 0) with (Z.pos d)
    by (unfold fexp, SpecFloat.emin, prec, emax; lia).
  assert (H1 := shr_spec (shr_record_of_loc (Z.pos p) loc_Exact) 0 (Z.pos d)).
  rewrite shr_record_of_loc_m in H1. specialize (H1 ltac:(lia)).
  destruct (shr (shr_record_of_loc (Z.pos p) loc_Exact) 0 (Z.pos d)) as [mrs' e'].
  cbn [fst snd] in H1. destruct H1 as [He' Hm']. rewrite Z.max_r in * by lia.
  assert (Hpd : 0 < 2 ^ Z.pos d) by (apply Z.pow_pos_nonneg; lia).
  assert (P1 : 2 ^ (dp - 1) = 2 ^ 52 * 2 ^ Z.pos d)
    by (rewrite <- Z.pow_add_r by lia; f_equal; lia).
  assert (P2 : 2 ^ dp = 2 ^ 53 * 2 ^ Z.pos d)
    by (rewrite <- Z.pow_add_r by lia; f_equal; lia).
  assert (Hm1 : 2 ^ 52 <= shr_m mrs' < 2 ^ 53).
  { rewrite Hm'. split.
    - apply Z.div_le_lower_bound; lia.
    - apply Z.div_lt_upper_bound; lia. }
  set (mr := round_nearest_even (shr_m mrs') (loc_of_shr_record mrs')).
  assert (Hmr := round_nearest_even_bounds (shr_m mrs') (loc_of_shr_record mrs')).
  fold mr in Hmr.
  set (n2 := fexp prec emax (Zdigits2 mr + e') - e').
  assert (Hdr : 53 <= Zdigits2 mr <= 54).
  { split.
    - destruct (Z_lt_le_dec (Zdigits2 mr) 53) as [H|H]; [|exact H].
      pose proof (Zdigits2_lt_pow mr ltac:(lia)).
      assert (2 ^ Zdigits2 mr <= 2 ^ 52)
        by (apply Z.pow_le_mono_r; [lia | pose proof (Zdigits2_nonneg mr); lia]).
      lia.
    - apply Zdigits2_le; [lia | lia |]. change (2 ^ 54) with (2 * 2 ^ 53). lia. }
  assert (Hn2 : 0 <= n2 <= 1)
    by (unfold n2, fexp, SpecFloat.emin, prec, emax; lia).
  assert (H2 := shr_spec (shr_record_of_loc mr loc_Exact) e' n2).
  rewrite shr_record_of_loc_m in H2. specialize (H2 ltac:(lia)).
  destruct (shr (shr_record_of_loc mr loc_Exact) e' n2) as [mrs'' e''].
  cbn [fst snd] in H2. destruct H2 as [He'' Hm''].
  rewrite Z.max_r in * by lia.
  assert (Hpos : 0 < shr_m mrs'').
  { rewrite Hm''. apply Z.div_str_pos.
    assert (2 ^ n2 <= 2 ^ 1) by (apply Z.pow_le_mono_r; lia).
    assert (0 < 2 ^ n2) by (apply Z.pow_pos_nonneg; lia).
    change (2 ^ 1) with 2 in *. change (2 ^ 52) with 4503599627370496 in *. lia. }
  destruct (shr_m mrs'') as [|m|m]; try lia.
  replace (e'' <=? emax - prec) with false
    by (symmetry; apply Z.leb_gt; unfold emax, prec; lia).
  reflexivity.
Qed.

Lemma float_of_int_overflow (n : Z) :
  2 ^ 1024 <= Z.abs n -> float_of_int n = Raise int_too_large.
Proof.
  intros Hn. unfold float_of_int.
  destruct n as [|p|p]; cbn [Z.abs binary_normalize] in *.
  - assert (0 < 2 ^ 1024) by (apply Z.pow_pos_nonneg; lia). lia.
  - rewrite binary_round_overflow by exact Hn. reflexivity.
  - rewrite binary_round_overflow by exact Hn. reflexivity.
Qed.

(** X10.  A size of [2^1024] or more, of either sign, has no double:
    [format_size] raises [OverflowError] instead of returning a string. *)
Theorem format_size_overflow (n : Z) :
  2 ^ 1024 <= Z.abs n -> format_size n = Raise int_too_large.
Proof.
  intros Hn. unfold format_size, units. rewrite format_size_loop_int.
  cbn [format_num]. rewrite (float_of_int_overflow n Hn).
  destruct (n <? 1024); reflexivity.
Qed.

Lemma format_size_overflow_witness :
  format_size (2 ^ 1024) = Raise int_too_large.
Proof.
  apply (format_size_overflow (2 ^ 1024)). vm_compute. discriminate.
Defined.

(** A loop over visited files that meets an exception the [except] clause
    does not catch ends with an exception. *)
Lemma process_visited_unhandled magika (fs : list (path * file_entry)) :
  forall sizes,
    forallb (handled magika) fs = false ->
    exists evs e, process_visited magika sizes fs = (evs, Raise e).
Proof.
  induction fs as [|f fs IH]; intros sizes H; [discriminate|].
  cbn [forallb] in H. cbn [process_visited]. unfold handled in H at 1.
  destruct (fate_of magika f) as [|e|label size|e].
  - apply IH, H.
  - destruct (caught e); [|eexists; eexists; reflexivity].
    destruct (IH sizes H) as [evs [e' E]]. rewrite E.
    eexists; eexists; reflexivity.
  - destruct (IH (dict_add sizes label size) H) as [evs [e' E]]. rewrite E.
    eexists; eexists; reflexivity.
  - eexists; eexists; reflexivity.
Qed.

Lemma dict_add_nonempty (d : dict) (k : string) (v : Z) : dict_add d k v <> [].
Proof.
  destruct d as [|[k' v'] d]; simpl; [discriminate|].
  destruct (String.eqb k' k); discriminate.
Qed.

Lemma accumulate_nonempty (l : list (string * Z)) (d : dict) :
  d <> [] \/ l <> [] -> accumulate d l <> [].
Proof.
  revert d; induction l as [|c l IH]; intros d H.
  - destruct H as [H|H]; [exact H | congruence].
  - apply IH. left. apply dict_add_nonempty.
Qed.

Lemma display_results_returns (d : dict) :
  d <> [] -> byte_counts d -> 0 < sum (values d) < 2 ^ 1023 ->
  exists out, display_results d = (out, Ok tt).
Proof.
  intros Hne Hb Ht.
  destruct (print_rows_ok (sum (values d)) (sorted_desc d)) as [rows [E F]].
  { intros item Hin. apply value_le_sum; [exact Hb|].
    eapply Permutation_in; [apply Permutation_sym, sorted_desc_perm | exact Hin]. }
  { exact Ht. }
  destruct (format_size_ok (sum (values d)) ltac:(lia)) as [t Et].
  unfold display_results. destruct d as [|kv d]; [congruence|].
  rewrite E. unfold print_total. rewrite Et. eexists; reflexivity.
Qed.

Lemma display_results_raises (d : dict) :
  d <> [] -> sum (values d) = 0 ->
  exists out e, display_results d = (out, Raise e).
Proof.
  intros Hne H0. unfold display_results.
  destruct d as [|kv d]; [congruence|]. rewrite H0.
  pose proof (sorted_desc_nonempty (kv :: d) Hne) as Hs.
  destruct (sorted_desc (kv :: d)) as [|[k v] items]; [congruence|].
  cbn [print_rows row]. unfold percentage. rewrite int_truediv_zero.
  eexists; eexists; reflexivity.
Qed.

(** X11.  For a path that is a directory, the program ends with the status
    0 exactly when no exception leaves the loops of the scan
    ([is_symlink()] answers for every file, and what the [try] raises the
    [except] clause catches) and the sizes counted are either none at all or
    not all zero; otherwise it ends with the status 1.  Warnings have no part
    in it.  (The sizes are taken to add up to less than [2^1023].) *)
Theorem main_exit_status (arg : option string) (fs : string -> target)
    (magika : classifier) (listable : bool) (entries : list (string * node)) :
  let directory := Path (match arg with Some d => d | None => "." end) in
  let files := visited (walk directory (Dir listable entries)) in
  fs (path_str directory) = Directory listable entries ->
  sum (map snd (counted magika files)) < 2 ^ 1023 ->
  (exit_code (main arg fs magika) = 0
   <-> forallb (handled magika) files = true
       /\ (counted magika files = [] \/ 0 < sum (map snd (counted magika files))))
  /\ (exit_code (main arg fs magika) = 0 \/ exit_code (main arg fs magika) = 1).
Proof.
  intros directory files Hfs Hbound.
  unfold main. fold directory. rewrite Hfs.
  unfold scan_directory. rewrite process_walk_visited. fold files.
  destruct (forallb (handled magika) files) eqn:Hh.
  - destruct (process_visited_handled magika files [] Hh) as [evs [E _]].
    rewrite E.
    assert (Hinv : byte_counts (accumulate [] (counted magika files))
                   /\ NoDup (keys (accumulate [] (counted magika files)))).
    { eapply process_visited_invariant; [exact E|]. split; constructor. }
    destruct Hinv as [Hb _].
    assert (Hsum : sum (values (accumulate [] (counted magika files)))
                   = sum (map snd (counted magika files))).
    { rewrite sum_values_accumulate. unfold sum at 1. simpl. lia. }
    destruct (counted magika files) as [|c cs] eqn:Ec.
    + cbn [accumulate fold_left display_results exit_code].
      split; [|left; reflexivity]. split; auto.
    + assert (Hne : accumulate [] (c :: cs) <> [])
        by (apply accumulate_nonempty; right; discriminate).
      pose proof (sum_nonneg _ Hb) as Hs0. rewrite Hsum in Hs0.
      destruct (Z.eq_dec (sum (map snd (c :: cs))) 0) as [Hz|Hnz].
      * destruct (display_results_raises _ Hne ltac:(lia)) as [out [e Ed]].
        rewrite Ed. cbn [exit_code]. split; [|right; reflexivity].
        split; [discriminate|]. intros [_ [H|H]]; [discriminate | lia].
      * destruct (display_results_returns _ Hne Hb ltac:(lia)) as [out Ed].
        rewrite Ed. cbn [exit_code]. split; [|left; reflexivity].
        split; [|reflexivity]. intros _. split; [reflexivity|]. right. lia.
  - destruct (process_visited_unhandled magika files [] Hh) as [evs [e E]].
    rewrite E. cbn [exit_code]. split; [|right; reflexivity].
    split; [discriminate|]. intros [H _]. discriminate.
Qed.

Lemma main_exit_status_witness :
  (exit_code (main (Some "d") (fun _ => Directory true example_entries) example_magika) = 0
   <-> forallb (handled example_magika)
         (visited (walk (Path "d") (Dir true example_entries))) = true
       /\ (counted example_magika (visited (walk (Path "d") (Dir true example_entries))) = []
           \/ 0 < sum (map snd (counted example_magika
                                  (visited (walk (Path "d") (Dir true example_entries)))))))
  /\ (exit_code (main (Some "d") (fun _ => Directory true example_entries) example_magika) = 0
      \/ exit_code (main (Some "d") (fun _ => Directory true example_entries) example_magika) = 1).
Proof.
  apply (main_exit_status (Some "d") (fun _ => Directory true example_entries)
           example_magika true example_entries).
  - reflexivity.
  - vm_compute. reflexivity.
Defined.

(** X12.  When no exception leaves the loops of the scan and the sizes
    counted are none or not all zero, the program prints the report of the
    accumulated counts (the line "No files found." when nothing was
    counted), writes to standard error the warnings of the failed files and
    nothing else, and ends with the status 0. *)
Theorem main_report (arg : option string) (fs : string -> target)
    (magika : classifier) (listable : bool) (entries : list (string * node)) :
  let directory := Path (match arg with Some d => d | None => "." end) in
  let files := visited (walk directory (Dir listable entries)) in
  fs (path_str directory) = Directory listable entries ->
  forallb (handled magika) files = true ->
  counted magika files = [] \/ 0 < sum (map snd (counted magika files)) < 2 ^ 1023 ->
  main arg fs magika
  = Run (fst (display_results (accumulate [] (counted magika files))))
        (warnings (failures magika files)) 0
  /\ (counted magika files = [] ->
      stdout (main arg fs magika) = ["No files found."]).
Proof.
  intros directory files Hfs Hh Hc.
  unfold main. fold directory. rewrite Hfs.
  unfold scan_directory. rewrite process_walk_visited. fold files.
  destruct (process_visited_handled magika files [] Hh) as [evs [E W]].
  rewrite E, W.
  destruct (counted magika files) as [|c cs] eqn:Ec.
  - cbn [accumulate fold_left display_results fst stdout]. split; reflexivity.
  - destruct Hc as [Hc|Hc]; [discriminate|].
    assert (Hinv : byte_counts (accumulate [] (c :: cs))
                   /\ NoDup (keys (accumulate [] (c :: cs)))).
    { eapply process_visited_invariant; [exact E|]. split; constructor. }
    assert (Hsum : sum (values (accumulate [] (c :: cs))) = sum (map snd (c :: cs))).
    { rewrite sum_values_accumulate. unfold sum at 1. simpl. lia. }
    destruct (display_results_returns (accumulate [] (c :: cs))) as [out Ed].
    + apply accumulate_nonempty. right. discriminate.
    + apply Hinv.
    + rewrite Hsum. exact Hc.
    + rewrite Ed. cbn [fst]. split; [reflexivity | discriminate].
Qed.

Lemma main_report_witness :
  main (Some "d/") (fun _ => Directory true example_entries) example_magika
  = Run (fst (display_results
                (accumulate []
                   (counted example_magika
                      (visited (walk (Path "d/") (Dir true example_entries)))))))
        (warnings (failures example_magika
                     (visited (walk (Path "d/") (Dir true example_entries))))) 0
  /\ (counted example_magika (visited (walk (Path "d/") (Dir true example_entries))) = [] ->
      stdout (main (Some "d/") (fun _ => Directory true example_entries) example_magika)
      = ["No files found."]).
Proof.
  apply (main_report (Some "d/") (fun _ => Directory true example_entries)
           example_magika true example_entries).
  - reflexivity.
  - reflexivity.
  - right. split; vm_compute; reflexivity.
Defined.

(** X14.  From 1024 bytes up to the last byte below [1024^5], the figure
    [format_size] prints before the unit lies between 1.00 and 1024.00:
    never below one unit, and at most the 1024.00 that a size just under
    the next threshold rounds up to. *)
Theorem format_size_figure_bounds (n : Z) :
  1024 <= n < 1024 ^ 5 ->
  exists h,
    format_size n = Ok (two_decimals h ++ " " ++ unit_name (unit_index n))%string
    /\ (100 <= h <= 102400)%N.
Proof.
  intros Hn.
  assert (B : n < 2 ^ 53) by (change (1024 ^ 5) with (2 ^ 50) in Hn;
    assert (2 ^ 50 <= 2 ^ 53) by (apply Z.pow_le_mono_r; lia); lia).
  exists (Z.to_N (round_half_even (n * 100) (1024 ^ Z.of_nat (unit_index n)))).
  split; [apply format_size_exact; lia|].
  pose proof (round_half_even_bounds (n * 100) (1024 ^ Z.of_nat (unit_index n))) as R.
  assert (Q : 100 <= n * 100 / 1024 ^ Z.of_nat (unit_index n) <= 102399).
  { unfold unit_index.
    destruct (n <? 1024) eqn:T0; [apply Z.ltb_lt in T0; lia|].
    destruct (n <? 1024 ^ 2) eqn:T1; [|destruct (n <? 1024 ^ 3) eqn:T2;
      [|destruct (n <? 1024 ^ 4) eqn:T3; [|destruct (n <? 1024 ^ 5) eqn:T4]]];
      repeat match goal with
             | H : (_ <? _) = true |- _ => apply Z.ltb_lt in H
             | H : (_ <? _) = false |- _ => apply Z.ltb_ge in H
             end; try lia.
    - change (1024 ^ Z.of_nat 1) with 1024. change (1024 ^ 2) with 1048576 in *.
      split; [apply Z.div_le_lower_bound; lia|].
      apply Z.lt_succ_r. apply Z.div_lt_upper_bound; lia.
    - change (1024 ^ Z.of_nat 2) with 1048576.
      change (1024 ^ 2) with 1048576 in *. change (1024 ^ 3) with 1073741824 in *.
      split; [apply Z.div_le_lower_bound; lia|].
      apply Z.lt_succ_r. apply Z.div_lt_upper_bound; lia.
    - change (1024 ^ Z.of_nat 3) with 1073741824.
      change (1024 ^ 3) with 1073741824 in *. change (1024 ^ 4) with 1099511627776 in *.
      split; [apply Z.div_le_lower_bound; lia|].
      apply Z.lt_succ_r. apply Z.div_lt_upper_bound; lia.
    - change (1024 ^ Z.of_nat 4) with 1099511627776.
      change (1024 ^ 4) with 1099511627776 in *.
      change (1024 ^ 5) with 1125899906842624 in *.
      split; [apply Z.div_le_lower_bound; lia|].
      apply Z.lt_succ_r. apply Z.div_lt_upper_bound; lia. }
  lia.
Qed.

Lemma format_size_figure_bounds_witness :
  exists h,
    format_size (1024 ^ 5 - 1)
    = Ok (two_decimals h ++ " " ++ unit_name (unit_index (1024 ^ 5 - 1)))%string
    /\ (100 <= h <= 102400)%N.
Proof.
  apply (format_size_figure_bounds (1024 ^ 5 - 1)). split; vm_compute; [discriminate | reflexivity].
Defined.

(** The size just below one pebibyte is printed as 1024.00 TB. *)
Example format_size_rounds_up : format_size (1024 ^ 5 - 1) = Ok "1024.00 TB".
Proof. vm_compute. reflexivity. Qed.

(** * Further properties of paths *)







